(** * TruffleHog scanning pipeline: a shallow embedding and its properties

    The development follows the Go sources package by package:

    - [bufferedfilewriter]: the threshold-spilling writer of the reader
      substrate (Write / Close / ReadCloser);
    - [decoders]: the Base64 decoder working on chunks held in a store;
    - [twilio]: the Twilio detector's FromData and its verification step;
    - [main]: flag handling of the command line entry point (results filter,
      base-commit ordering, exit codes);
    - [engine]: keyword prefilter, duplicate detection and the verification
      override map.

    Byte slices are [list byte], Go strings are [string], Go maps are
    stdpp [gmap]s, machine integers are [Z] with their wrap-around written
    out, and code that mutates through a pointer is modelled with an explicit
    store. *)

From Stdlib Require Import ZArith List Lia Bool.
From Stdlib Require Import Strings.String Strings.Ascii Strings.Byte.
From Stdlib Require Import DecimalString.
From stdpp Require Import base gmap strings list.
Import ListNotations.
Open Scope Z_scope.

(** ** Shared vocabulary *)

(** Go's [(T, error)] results. *)
Inductive result (A : Type) : Type :=
| Ok (a : A)
| Err (msg : string).
Arguments Ok {A} a.
Arguments Err {A} msg.

Definition is_ok {A} (r : result A) : bool :=
  match r with Ok _ => true | Err _ => false end.

(** [len(b)] of a slice, as a Go [int]. *)
Definition len {A} (l : list A) : Z := Z.of_nat (length l).

(** Go slices never hold [2^63] elements or more. *)
Definition fits_int {A} (l : list A) : Prop := len l < 2 ^ 63.

(** Conversion to [uint64]. *)
Definition uint64 (z : Z) : Z := z mod 2 ^ 64.

(** * Package bufferedfilewriter *)

Module bufferedfilewriter.

(** The part of the operating system the writer talks to: the files of the
    temporary directory and the supply of names [os.CreateTemp] draws
    from. *)
Record OS : Type := mkOS {
  files : gmap string (list byte);
  tmpnames : list string
}.

(** An open [os.File] handle. *)
Record File : Type := mkFile {
  fname : string;
  closed : bool
}.

Record BufferedFileWriter : Type := mkWriter {
  threshold : Z;          (* uint64 *)
  size : Z;               (* uint64 *)
  buf : list byte;        (* bytes.Buffer *)
  filename : string;
  file : option File      (* io.WriteCloser, [None] is nil *)
}.

Definition defaultThreshold : Z := 10 * 1024 * 1024.

(** [New()] and [New(WithThreshold(t))]. *)
Definition New (opt : option Z) : BufferedFileWriter :=
  let w := mkWriter defaultThreshold 0 [] "" None in
  match opt with
  | None => w
  | Some t => mkWriter t (size w) (buf w) (filename w) (file w)
  end.

(** [os.CreateTemp]: the next name of the supply, created exclusively. *)
Definition CreateTemp (os : OS) : result (File * OS) :=
  match tmpnames os with
  | [] => Err "cannot create temporary file"
  | nm :: rest =>
      match files os !! nm with
      | Some _ => Err "file exists"
      | None => Ok (mkFile nm false, mkOS (<[nm := []]> (files os)) rest)
      end
  end.

(** [Write] of [os.File]: appends, fails on a closed handle. *)
Definition fileWrite (os : OS) (f : File) (data : list byte) : result OS :=
  if closed f then Err "file already closed"
  else match files os !! fname f with
       | None => Err "no such file"
       | Some c => Ok (mkOS (<[fname f := c ++ data]> (files os)) (tmpnames os))
       end.

Definition set_size (w : BufferedFileWriter) (s : Z) : BufferedFileWriter :=
  mkWriter (threshold w) s (buf w) (filename w) (file w).

Definition set_buf (w : BufferedFileWriter) (b : list byte) : BufferedFileWriter :=
  mkWriter (threshold w) (size w) b (filename w) (file w).

Definition set_file (w : BufferedFileWriter) (f : File) : BufferedFileWriter :=
  mkWriter (threshold w) (size w) (buf w) (fname f) (Some f).

(** The deferred [w.size += size] runs on every path out of [Write]. *)
Definition deferred (sz : Z) (w : BufferedFileWriter) : BufferedFileWriter :=
  set_size w (uint64 (size w + sz)).

(** [Write].  When the buffer is empty a pooled buffer is taken and Reset,
    which leaves the writer with an empty buffer again, so that step does
    not show in the state. *)
Definition Write (w : BufferedFileWriter) (os : OS) (data : list byte)
  : result Z * BufferedFileWriter * OS :=
  let sz := uint64 (len data) in
  if uint64 (uint64 (len (buf w)) + sz) <=? threshold w then
    (Ok (len data), deferred sz (set_buf w (buf w ++ data)), os)
  else
    match file w with
    | Some f =>
        match fileWrite os f data with
        | Ok os' => (Ok (len data), deferred sz w, os')
        | Err e => (Err e, deferred sz w, os)
        end
    | None =>
        match CreateTemp os with
        | Err e => (Err e, deferred sz w, os)
        | Ok (f, os1) =>
            let w1 := set_file w f in
            if 0 <? len (buf w1) then
              match fileWrite os1 f (buf w1) with
              | Err e => (Err e, deferred sz w1, os1)
              | Ok os2 =>
                  let w2 := set_buf w1 [] in
                  match fileWrite os2 f data with
                  | Ok os3 => (Ok (len data), deferred sz w2, os3)
                  | Err e => (Err e, deferred sz w2, os2)
                  end
              end
            else
              match fileWrite os1 f data with
              | Ok os3 => (Ok (len data), deferred sz w1, os3)
              | Err e => (Err e, deferred sz w1, os1)
              end
        end
    end.

(** [Close] of [os.File]. *)
Definition fileClose (f : File) : result File :=
  if closed f then Err "file already closed" else Ok (mkFile (fname f) true).

(** [Close]: flushes what is left in the buffer to the file, if there is a
    file, and closes it.  [None] is a nil error. *)
Definition Close (w : BufferedFileWriter) (os : OS)
  : option string * BufferedFileWriter * OS :=
  match file w with
  | None => (None, w, os)
  | Some f =>
      let flushed :=
        if 0 <? len (buf w) then fileWrite os f (buf w) else Ok os in
      match flushed with
      | Err e => (Some e, w, os)
      | Ok os' =>
          match fileClose f with
          | Ok f' =>
              (None, mkWriter (threshold w) (size w) (buf w) (filename w) (Some f'), os')
          | Err e => (Some e, w, os')
          end
      end
  end.

(** The reader handed out by [ReadCloser]: what reading it to exhaustion
    yields, and the file its Close deletes. *)
Record Reader : Type := mkReader {
  content : list byte;
  deletes : option string
}.

Definition ReadCloser (w : BufferedFileWriter) (os : OS) : result Reader :=
  match file w with
  | Some _ =>
      match files os !! filename w with
      | Some c => Ok (mkReader c (Some (filename w)))
      | None => Err "no such file"
      end
  | None => Ok (mkReader (buf w) None)
  end.

(** A sequence of [Write] calls; stops at the first error. *)
Fixpoint WriteAll (w : BufferedFileWriter) (os : OS) (ds : list (list byte))
  : result (BufferedFileWriter * OS) :=
  match ds with
  | [] => Ok (w, os)
  | d :: rest =>
      match Write w os d with
      | (Ok _, w', os') => WriteAll w' os' rest
      | (Err e, _, _) => Err e
      end
  end.

(** Write everything, Close, take the reader and read it to the end. *)
Definition roundtrip (w : BufferedFileWriter) (os : OS) (ds : list (list byte))
  : result (list byte) :=
  match WriteAll w os ds with
  | Err e => Err e
  | Ok (w1, os1) =>
      match Close w1 os1 with
      | (Some e, _, _) => Err e
      | (None, w2, os2) =>
          match ReadCloser w2 os2 with
          | Ok r => Ok (content r)
          | Err e => Err e
          end
      end
  end.

(** Cumulative sizes of the prefixes of a write sequence stay within [t]. *)
Fixpoint within (t : Z) (acc : Z) (ds : list (list byte)) : Prop :=
  match ds with
  | [] => True
  | d :: rest => acc + len d <= t /\ within t (acc + len d) rest
  end.

Definition bytes (s : string) : list byte := list_byte_of_string s.

(** Total number of bytes of a write sequence. *)
Definition total (ds : list (list byte)) : Z := len (concat ds).

(** The spill rule read as "from the first Write that crosses the threshold
    on, everything is in the file": after the writes [pre] (within the
    threshold), the crossing write [d] and the later writes [post], the
    temporary file holds all of it in order. *)
Definition all_later_data_in_file
  (t : Z) (os : OS) (pre : list (list byte)) (d : list byte)
  (post : list (list byte)) : Prop :=
  within t 0 pre -> t < total pre + len d ->
  exists w' os' f,
    WriteAll (New (Some t)) os (pre ++ d :: post) = Ok (w', os') /\
    file w' = Some f /\
    files os' !! fname f = Some (concat pre ++ d ++ concat post).

Definition os0 : OS := mkOS ∅ ["trufflehog-1"%string; "trufflehog-2"%string].

(** [Close] of the reader handed out by [ReadCloser]: the file reader
    closes its file and removes it; the buffer reader only hands the buffer
    back to the pool. *)
Definition ReaderClose (r : Reader) (os : OS) : OS :=
  match deletes r with
  | Some nm => mkOS (delete nm (files os)) (tmpnames os)
  | None => os
  end.

(** The whole life of a writer: the writes, Close, ReadCloser, reading the
    reader to the end and closing it. *)
Definition lifecycle (w : BufferedFileWriter) (os : OS) (ds : list (list byte))
  : result (list byte * OS) :=
  match WriteAll w os ds with
  | Err e => Err e
  | Ok (w1, os1) =>
      match Close w1 os1 with
      | (Some e, _, _) => Err e
      | (None, w2, os2) =>
          match ReadCloser w2 os2 with
          | Ok r => Ok (content r, ReaderClose r os2)
          | Err e => Err e
          end
      end
  end.

(** The state of a writer that was started on the system [os0], whose next
    temporary name [nm] was free, after [written] has been written: either
    everything is still in the buffer, in order, and the system is
    untouched, or the one temporary file [nm] exists and file plus buffer
    hold the written bytes. *)
Definition tracks (os0 : OS) (nm : string) (written : list byte)
  (w : BufferedFileWriter) (os : OS) : Prop :=
  (file w = None /\ os = os0 /\ buf w = written) \/
  (exists c,
     file w = Some (mkFile nm false) /\ filename w = nm /\
     files os = <[nm := c]> (files os0) /\
     Permutation (c ++ buf w) written).

End bufferedfilewriter.

(** * Package main *)

Module main.

(** [strings.Split(s, sep)] for a one-character separator. *)
Fixpoint Split (s : string) (sep : ascii) : list string :=
  match s with
  | EmptyString => [EmptyString]
  | String c rest =>
      if Ascii.eqb c sep then EmptyString :: Split rest sep
      else match Split rest sep with
           | [] => [String c EmptyString]
           | x :: xs => String c x :: xs
           end
  end.

(** [strings.ToLower] on ASCII input. *)
Definition lowerAscii (c : ascii) : ascii :=
  let n := N_of_ascii c in
  if ((65 <=? n) && (n <=? 90))%N then ascii_of_N (n + 32) else c.

Fixpoint asciiToLower (s : string) : string :=
  match s with
  | EmptyString => EmptyString
  | String c rest => String (lowerAscii c) (asciiToLower rest)
  end.

(** The four result categories accepted by [--results]. *)
Definition valid_value (v : string) : bool :=
  String.eqb v "verified" || String.eqb v "unknown" ||
  String.eqb v "unverified" || String.eqb v "filtered_unverified".

Definition is_category (v : string) : Prop :=
  v = "verified"%string \/ v = "unknown"%string \/
  v = "unverified"%string \/ v = "filtered_unverified"%string.

(** The loop of [parseResults] over the split values. *)
Fixpoint parseValues (values : list string) (results : gset string)
  : result (gset string) :=
  match values with
  | [] => Ok results
  | value :: rest =>
      if valid_value value then parseValues rest ({[ value ]} ∪ results)
      else Err ("invalid value '" ++ value ++
                "', valid values are 'verified,unknown,unverified,filtered_unverified'")
  end.

(** Modelled from the spec: the engine's use of the parsed filter is not
    among the sources; a nil filter restricts nothing, a set lets its
    members through. *)
Definition passes (filter : option (gset string)) (category : string) : Prop :=
  match filter with
  | None => True
  | Some set => category ∈ set
  end.

(** Command line flags read by [run]. *)
Record Flags : Type := mkFlags {
  localDev : bool;
  jsonOut : bool;
  jsonLegacy : bool;
  concurrency : Z;
  noVerification : bool;
  onlyVerified : bool;
  results : string;
  allowVerificationOverlap : bool;
  filterUnverified : bool;
  scanEntireChunk : bool;
  compareDetectionStrategies : bool;
  configFilename : string;
  printAvgDetectorTime : bool;
  fail : bool;
  customVerifiersOnly : bool;
  includeDetectors : string;
  excludeDetectors : string;
  gitScanSinceCommit : string;
  jobReportFile : bool
}.

(** [engine.Config], the fields [run] fills in. *)
Record Config : Type := mkConfig {
  Concurrency : Z;
  Detectors : list string;
  Verify : bool;
  IncludeDetectors : string;
  ExcludeDetectors : string;
  CustomVerifiersOnly : bool;
  FilterUnverified : bool;
  VerificationOverlap : bool;
  Results : option (gset string);
  PrintAvgDetectorTime : bool;
  ShouldScanEntireChunk : bool
}.

Inductive SourceManagerOpt : Type :=
| WithConcurrentSources (n : Z)
| WithConcurrentUnits (n : Z)
| WithSourceUnits
| WithBufferedOutput (n : Z)
| WithReportHook.

(** [engine.Metrics] and the [metrics] struct of package main. *)
Record EngineMetrics : Type := mkEngineMetrics {
  ChunksScanned : Z;
  BytesScanned : Z;
  VerifiedSecretsFound : Z;
  UnverifiedSecretsFound : Z
}.

Record metrics : Type := mkMetrics {
  Metrics : EngineMetrics;
  hasFoundResults : bool
}.

(** What the engine reports for one scan: [GetMetrics()] and
    [HasFoundResults()]. *)
Record EngineReport : Type := mkReport {
  GetMetrics : EngineMetrics;
  HasFoundResults : bool
}.

(** How a call of [run] ends: [os.Exit(code)] or a plain return. *)
Inductive outcome : Type :=
| Exit (code : Z)
| Return.

(** [logFatalFunc]: the returned function exits with 1 on a non-nil error
    and with 0 otherwise. *)
Definition logFatal (err : option string) : outcome :=
  match err with
  | Some _ => Exit 1
  | None => Exit 0
  end.

Definition defaultOutputBufferSize : Z := 64.

Definition scanMetrics0 : metrics := mkMetrics (mkEngineMetrics 0 0 0 0) false.

Section Run.

(** [strings.ToLower] of the Go library. *)
Variable ToLower : string -> string.

(** [config.Read]: the custom detectors of a configuration file. *)
Variable configRead : string -> result (list string).

(** The engine: given the source manager options, the configuration and the
    sub-command it initialises, scans, finishes and reports, or fails. *)
Variable engineScan : list SourceManagerOpt -> Config -> string -> result EngineReport.

(** [overseer.RunErr] failing before the program is started. *)
Variable overseerErr : option string.

Definition parseResults (input : string) : result (option (gset string)) :=
  if String.eqb input "" then Ok None
  else match parseValues (Split (ToLower input) ","%char) ∅ with
       | Ok set => Ok (Some set)
       | Err e => Err e
       end.

Definition sourceManagerOpts (cfg : Config) (jobReport : bool) : list SourceManagerOpt :=
  [WithConcurrentSources (Concurrency cfg);
   WithConcurrentUnits (Concurrency cfg);
   WithSourceUnits;
   WithBufferedOutput defaultOutputBufferSize]
  ++ (if jobReport then [WithReportHook] else []).

Definition runSingleScan (f : Flags) (cmd : string) (cfg : Config) : metrics * option string :=
  match engineScan (sourceManagerOpts cfg (jobReportFile f)) cfg cmd with
  | Err e => (scanMetrics0, Some e)
  | Ok rep => (mkMetrics (GetMetrics rep) (HasFoundResults rep), None)
  end.

Definition compareMetrics (customMetrics entireMetrics : EngineMetrics) : option string :=
  if negb (ChunksScanned customMetrics =? ChunksScanned entireMetrics) ||
     negb (BytesScanned customMetrics =? BytesScanned entireMetrics) ||
     negb (VerifiedSecretsFound customMetrics =? VerifiedSecretsFound entireMetrics)
  then Some "scan metrics do not match"%string
  else None.

Definition withEntireChunk (cfg : Config) : Config :=
  mkConfig (Concurrency cfg) (Detectors cfg) (Verify cfg) (IncludeDetectors cfg)
    (ExcludeDetectors cfg) (CustomVerifiersOnly cfg) (FilterUnverified cfg)
    (VerificationOverlap cfg) (Results cfg) (PrintAvgDetectorTime cfg) true.

(** [compareScans]: the scan over entire chunks (its error is only logged)
    and the scan with the max-length span calculator, then the comparison.
    The two scans run one after the other here. *)
Definition compareScans (f : Flags) (cmd : string) (cfg : Config) : option string :=
  let entireMetrics := fst (runSingleScan f cmd (withEntireChunk cfg)) in
  match runSingleScan f cmd cfg with
  | (_, Some e) => Some ("error running scan with custom span calculator: " ++ e)%string
  | (maxLengthMetrics, None) =>
      compareMetrics (Metrics maxLengthMetrics) (Metrics entireMetrics)
  end.

(** The value of [*concurrency] after the base-commit check. *)
Definition pinnedConcurrency (f : Flags) : Z :=
  if negb (String.eqb (gitScanSinceCommit f) "") then 1 else concurrency f.

Definition engConf (f : Flags) (detectors : list string)
  (parsedResults : option (gset string)) : Config :=
  mkConfig (pinnedConcurrency f) detectors (negb (noVerification f))
    (includeDetectors f) (excludeDetectors f) (customVerifiersOnly f)
    (filterUnverified f) (allowVerificationOverlap f) parsedResults
    (printAvgDetectorTime f) (scanEntireChunk f).

(** The configuration file, when [--config] names one. *)
Definition loadConfig (f : Flags) : result (list string) :=
  if negb (String.eqb (configFilename f) "") then configRead (configFilename f)
  else Ok [].

(** The [--results] value after [--only-verified] has been applied. *)
Definition resultsFlag (f : Flags) : string :=
  if onlyVerified f then "verified"%string else results f.

Definition run (f : Flags) (cmd : string) : outcome :=
  match loadConfig f with
  | Err e => logFatal (Some e)
  | Ok detectors =>
      match parseResults (resultsFlag f) with
      | Err e => logFatal (Some e)
      | Ok parsedResults =>
          let cfg := engConf f detectors parsedResults in
          if compareDetectionStrategies f then
            match compareScans f cmd cfg with
            | Some e => logFatal (Some e)
            | None => Return
            end
          else
            match runSingleScan f cmd cfg with
            | (_, Some e) => logFatal (Some e)
            | (m, None) =>
                if hasFoundResults m && fail f then Exit 183 else Return
            end
      end
  end.

(** The exit status of the process. *)
Definition exitCode (o : outcome) : Z :=
  match o with
  | Exit c => c
  | Return => 0
  end.

Definition main (f : Flags) (cmd : string) : Z :=
  if localDev f then exitCode (run f cmd)
  else match overseerErr with
       | Some e => exitCode (logFatal (Some e))
       | None => exitCode (run f cmd)
       end.

(** Every scan configuration that [run] hands to the engine. *)
Definition scansOf (f : Flags) (detectors : list string)
  (parsedResults : option (gset string)) : list Config :=
  let cfg := engConf f detectors parsedResults in
  if compareDetectionStrategies f then [withEntireChunk cfg; cfg] else [cfg].

(** The engine's [HasFoundResults()] for one scan. *)
Definition reportsFound (f : Flags) (cmd : string) (cfg : Config) : bool :=
  match engineScan (sourceManagerOpts cfg (jobReportFile f)) cfg cmd with
  | Ok rep => HasFoundResults rep
  | Err _ => false
  end.

(** [run] was started at all. *)
Definition started (f : Flags) : Prop :=
  localDev f = true \/ overseerErr = None.

(** The process reached its scans and one of them reported results. *)
Definition findingsEmitted (f : Flags) (cmd : string) : Prop :=
  started f /\
  exists detectors parsedResults cfg,
    loadConfig f = Ok detectors /\
    parseResults (resultsFlag f) = Ok parsedResults /\
    In cfg (scansOf f detectors parsedResults) /\
    reportsFound f cmd cfg = true.

(** An error reached one of the [logFatal] calls. *)
Definition internalError (f : Flags) (cmd : string) : Prop :=
  (localDev f = false /\ overseerErr <> None) \/
  (started f /\
   ((exists e, loadConfig f = Err e) \/
    (exists detectors,
       loadConfig f = Ok detectors /\
       ((exists e, parseResults (resultsFlag f) = Err e) \/
        (exists parsedResults,
           parseResults (resultsFlag f) = Ok parsedResults /\
           let cfg := engConf f detectors parsedResults in
           if compareDetectionStrategies f
           then compareScans f cmd cfg <> None
           else snd (runSingleScan f cmd cfg) <> None))))).

(** The exit-code rule read literally: 183 exactly when results were found
    and [--fail] was given. *)
Definition exit_rule_as_stated (f : Flags) (cmd : string) : Prop :=
  main f cmd = 183 <-> (findingsEmitted f cmd /\ fail f = true).

End Run.

(** A run used in the examples: a git scan with [--fail] and the hidden
    [--compare-detection-strategies] flag. *)
Definition flags0 : Flags :=
  mkFlags true false false 8 false false "" false false false false ""
          false false false "all" "" "" false.

Definition withCompareAndFail (f : Flags) : Flags :=
  mkFlags (localDev f) (jsonOut f) (jsonLegacy f) (concurrency f)
    (noVerification f) (onlyVerified f) (results f) (allowVerificationOverlap f)
    (filterUnverified f) (scanEntireChunk f) true (configFilename f)
    (printAvgDetectorTime f) true (customVerifiersOnly f) (includeDetectors f)
    (excludeDetectors f) (gitScanSinceCommit f) (jobReportFile f).

Definition withSinceCommit (f : Flags) (commit : string) : Flags :=
  mkFlags (localDev f) (jsonOut f) (jsonLegacy f) (concurrency f)
    (noVerification f) (onlyVerified f) (results f) (allowVerificationOverlap f)
    (filterUnverified f) (scanEntireChunk f) (compareDetectionStrategies f)
    (configFilename f) (printAvgDetectorTime f) (fail f) (customVerifiersOnly f)
    (includeDetectors f) (excludeDetectors f) commit (jobReportFile f).

Definition noConfig : string -> result (list string) :=
  fun _ => Err "no such file"%string.

(** An engine whose every scan finds one verified secret. *)
Definition findingEngine : list SourceManagerOpt -> Config -> string -> result EngineReport :=
  fun _ _ _ => Ok (mkReport (mkEngineMetrics 1 100 1 0) true).

(** [commaSeparatedToSlice], with [strings.TrimSpace] of the Go library as
    a parameter. *)
Definition commaSeparatedToSlice (TrimSpace : string -> string) (s : list string)
  : list string :=
  fold_left
    (fun result items =>
       fold_left
         (fun result item =>
            let item := TrimSpace item in
            if String.eqb item "" then result else result ++ [item])
         (Split items ","%char) result)
    s [].

End main.

(** * Package twilio *)

Module twilio.

Inductive DetectorType : Type :=
| DetectorType_Twilio.

(** The three compiled patterns of the package. *)
Inductive pattern : Type :=
| identifierPat
| sidPat
| keyPat.

Record service : Type := mkService {
  FriendlyName : string;
  SID : string;
  AccountSID : string
}.

(** An [http.Request] as far as FromData builds it. *)
Record Request : Type := mkRequest {
  Method : string;
  URL : string;
  Header : list (string * string);
  BasicAuth : option (string * string)
}.

(** An [http.Response]: the status code and what decoding the body as a
    [serviceResponse] gives. *)
Record Response : Type := mkResponse {
  StatusCode : Z;
  Services : result (list service)
}.

Record Result : Type := mkResult {
  DetectorType_ : DetectorType;
  Raw : list byte;
  RawV2 : list byte;
  Redacted : string;
  Verified : bool;
  verificationError : option string;
  ExtraData : gmap string string;
  AnalysisInfo : option (gmap string string)
}.

Definition set_Verified (r : Result) (v : bool) : Result :=
  mkResult (DetectorType_ r) (Raw r) (RawV2 r) (Redacted r) v
    (verificationError r) (ExtraData r) (AnalysisInfo r).

Definition set_AnalysisInfo (r : Result) (a : gmap string string) : Result :=
  mkResult (DetectorType_ r) (Raw r) (RawV2 r) (Redacted r) (Verified r)
    (verificationError r) (ExtraData r) (Some a).

Definition set_ExtraData (r : Result) (k v : string) : Result :=
  mkResult (DetectorType_ r) (Raw r) (RawV2 r) (Redacted r) (Verified r)
    (verificationError r) (<[k := v]> (ExtraData r)) (AnalysisInfo r).

(** Modelled from the spec: [SetVerificationError] of the detectors package
    is not among the sources; it marks the result's verification error as
    set, here with the error's message. *)
Definition SetVerificationError (r : Result) (err : string) (secret : string) : Result :=
  mkResult (DetectorType_ r) (Raw r) (RawV2 r) (Redacted r) (Verified r)
    (Some err) (ExtraData r) (AnalysisInfo r).

Definition Keywords : list string := ["sid"%string].

(** The candidate built for one (sid, key) pair. *)
Definition candidate (sid key : string) : Result :=
  mkResult DetectorType_Twilio
    (list_byte_of_string sid) (list_byte_of_string (sid ++ key)) sid false None
    (<["rotation_guide"%string := "https://howtorotate.com/docs/tutorials/twilio/"%string]> ∅)
    None.

(** The branches on the outcome of [client.Do(req)]. *)
Definition judge (s1 : Result) (sid key : string) (res : result Response) : Result :=
  match res with
  | Ok res =>
      if (200 <=? StatusCode res) && (StatusCode res <? 300) then
        let s1 := set_Verified s1 true in
        let s1 := set_AnalysisInfo s1
                    (<["key"%string := key]> (<["sid"%string := sid]> ∅)) in
        match Services res with
        | Ok (service :: _) =>
            set_ExtraData
              (set_ExtraData s1 "friendly_name" (FriendlyName service))
              "account_sid" (AccountSID service)
        | _ => s1
        end
      else if (StatusCode res =? 401) || (StatusCode res =? 403) then
        s1
      else
        SetVerificationError s1
          ("unexpected HTTP response status " ++
           NilZero.string_of_int (Z.to_int (StatusCode res))) key
  | Err err => SetVerificationError s1 err key
  end.

Section FromData.

(** [FindAllString(dataStr, -1)] of the regular expression library. *)
Variable FindAllString : pattern -> string -> list string.

(** [http.NewRequestWithContext] under the context FromData was given. *)
Variable NewRequestWithContext : string -> string -> result Request.

(** The [n]-th call of [client.Do] made by this FromData. *)
Variable Do : nat -> Request -> result Response.

Definition prepare (req : Request) (sid key : string) : Request :=
  mkRequest (Method req) (URL req)
    (Header req ++ [("Content-Type", "application/x-www-form-urlencoded");
                    ("Accept", "*/*")]%string)
    (Some (sid, key)).

(** One turn of the inner loop; the state is the results so far and the
    number of requests sent. *)
Definition body (verify : bool) (keyMatches : list string) (sid : string)
  (st : list Result * nat) (key : string) : list Result * nat :=
  let '(results, n) := st in
  let s1 := candidate sid key in
  let emit s1 := if 0 <? len keyMatches then results ++ [s1] else results in
  if verify then
    match NewRequestWithContext "GET" "https://verify.twilio.com/v2/Services" with
    | Err _ => (results, n)
    | Ok req => (emit (judge s1 sid key (Do n (prepare req sid key))), S n)
    end
  else (emit s1, n).

Definition FromData (verify : bool) (data : list byte) : list Result * option string :=
  let dataStr := string_of_list_byte data in
  let identifierMatches := FindAllString identifierPat dataStr in
  if len identifierMatches =? 0 then ([], None)
  else
    let keyMatches := FindAllString keyPat dataStr in
    let sidMatches := FindAllString sidPat dataStr in
    (fst (fold_left (fun st sid => fold_left (body verify keyMatches sid) keyMatches st)
                    sidMatches ([], 0%nat)),
     None).

(** A result is the judged candidate of some pair of the match lists and
    of some request sent. *)
Definition judged (sids keys : list string) (r : Result) : Prop :=
  exists sid key n req,
    In sid sids /\ In key keys /\
    NewRequestWithContext "GET" "https://verify.twilio.com/v2/Services" = Ok req /\
    r = judge (candidate sid key) sid key (Do n (prepare req sid key)).

End FromData.

(** A sample environment: one sid, one key, and an endpoint answering with
    the given status and no services. *)
Definition sampleMatches : pattern -> string -> list string :=
  fun p _ =>
    match p with
    | identifierPat => ["sid: AC00000000000000000000000000000000"%string]
    | sidPat => ["AC00000000000000000000000000000000"%string]
    | keyPat => ["0123456789abcdef0123456789abcdef"%string]
    end.

Definition sampleRequest : string -> string -> result Request :=
  fun m u => Ok (mkRequest m u [] None).

Definition answering (status : Z) : nat -> Request -> result Response :=
  fun _ _ => Ok (mkResponse status (Ok [])).

End twilio.

(** * Package decoders *)

Module decoders.

Definition loc : Type := positive.

(** [sources.Chunk].  [Data] is a slice: it refers to a backing array of the
    heap. *)
Record Chunk : Type := mkChunk {
  SourceName : string;
  SourceID : Z;
  SourceType : Z;
  Data : loc;
  Verify : bool
}.

(** The heap: chunks reached through pointers, and byte arrays. *)
Record Heap : Type := mkHeap {
  chunks : gmap loc Chunk;
  arrays : gmap loc (list byte)
}.

Definition b64Charset : list byte :=
  list_byte_of_string
    "ABCDEFGHIJKLMNOPQRSTUVWXYZabcdefghijklmnopqrstuvwxyz0123456789+/=".

Definition b64EndChars : list byte := list_byte_of_string "+/=".

Definition inSet (cutset : list byte) (c : byte) : bool :=
  existsb (Byte.eqb c) cutset.

(** [bytes.TrimLeft] and [bytes.TrimRight]. *)
Fixpoint TrimLeft (s cutset : list byte) : list byte :=
  match s with
  | [] => []
  | c :: rest => if inSet cutset c then TrimLeft rest cutset else s
  end.

Definition TrimRight (s cutset : list byte) : list byte :=
  rev (TrimLeft (rev s) cutset).

(** [bytes.IndexByte]: [-1] when absent. *)
Fixpoint IndexByte (s : list byte) (c : byte) : Z :=
  match s with
  | [] => -1
  | x :: rest =>
      if Byte.eqb x c then 0
      else let i := IndexByte rest c in if i <? 0 then -1 else i + 1
  end.

Fixpoint hasPrefix (s prefix : list byte) : bool :=
  match prefix, s with
  | [], _ => true
  | _ :: _, [] => false
  | p :: prefix', c :: s' => Byte.eqb c p && hasPrefix s' prefix'
  end.

(** [bytes.Index]: [-1] when absent. *)
Fixpoint Index (s sep : list byte) : Z :=
  if hasPrefix s sep then 0
  else match s with
       | [] => -1
       | _ :: rest => let i := Index rest sep in if i <? 0 then -1 else i + 1
       end.

(** The slice expression [s[i:j]]. *)
Definition slice (s : list byte) (i j : Z) : list byte :=
  firstn (Z.to_nat (j - i)) (skipn (Z.to_nat i) s).

Definition sliceFrom (s : list byte) (i : Z) : list byte :=
  skipn (Z.to_nat i) s.

(** The [b64CharsetMapping] test of one byte. *)
Definition isB64 (char : byte) : bool :=
  (Byte.to_N char <? 128)%N && inSet b64Charset char.

Definition appendB64Substring (data : list byte) (start count : Z)
  (substrings : list string) : list string :=
  let substring := TrimLeft (slice data start (start + count)) b64EndChars in
  let idx := IndexByte (TrimRight substring b64EndChars) "="%byte in
  if negb (idx =? -1) then
    substrings ++ [string_of_list_byte (sliceFrom substring (idx + 1))]
  else substrings ++ [string_of_list_byte substring].

(** The second loop of [getSubstringsOfCharacterSet]; the first one only
    sizes the slice.  The state is [count], [start] and the substrings. *)
Fixpoint scanRuns (data rest : list byte) (i : Z) (threshold : Z)
  (count start : Z) (substrings : list string) : Z * Z * list string :=
  match rest with
  | [] => (count, start, substrings)
  | char :: rest' =>
      if isB64 char then
        let start := if count =? 0 then i else start in
        scanRuns data rest' (i + 1) threshold (count + 1) start substrings
      else
        let substrings :=
          if threshold <? count
          then appendB64Substring data start count substrings
          else substrings in
        scanRuns data rest' (i + 1) threshold 0 start substrings
  end.

Definition getSubstringsOfCharacterSet (data : list byte) (threshold : Z)
  : list string :=
  if len data =? 0 then []
  else
    let '(count, start, substrings) := scanRuns data data 0 threshold 0 0 [] in
    if threshold <? count then appendB64Substring data start count substrings
    else substrings.

(** The value of a Base64 digit in the standard alphabet. *)
Definition decodeMap (c : byte) : option Z :=
  let n := Z.of_N (Byte.to_N c) in
  if (65 <=? n) && (n <=? 90) then Some (n - 65)
  else if (97 <=? n) && (n <=? 122) then Some (n - 97 + 26)
  else if (48 <=? n) && (n <=? 57) then Some (n - 48 + 52)
  else if n =? 43 then Some 62
  else if n =? 47 then Some 63
  else None.

Definition byteOfZ (z : Z) : byte :=
  match Byte.of_N (Z.to_N (z mod 256)) with
  | Some b => b
  | None => "000"%byte
  end.

Definition isPad (c : byte) : bool := Byte.eqb c "="%byte.

(** The quanta of [base64.StdEncoding] decoding, line breaks removed:
    four digits give three bytes; padding is required and only allowed in
    the last quantum. *)
Fixpoint decodeQuanta (src : list byte) : result (list byte) :=
  match src with
  | [] => Ok []
  | a :: b :: c :: d :: rest =>
      match decodeMap a, decodeMap b with
      | Some va, Some vb =>
          match decodeMap c, decodeMap d with
          | Some vc, Some vd =>
              let val := Z.lor (Z.lor (Z.lor (Z.shiftl va 18) (Z.shiftl vb 12))
                                      (Z.shiftl vc 6)) vd in
              match decodeQuanta rest with
              | Ok out =>
                  Ok (byteOfZ (Z.shiftr val 16) :: byteOfZ (Z.shiftr val 8)
                      :: byteOfZ val :: out)
              | Err e => Err e
              end
          | Some vc, None =>
              if isPad d && match rest with [] => true | _ => false end then
                let val := Z.lor (Z.lor (Z.shiftl va 18) (Z.shiftl vb 12))
                                 (Z.shiftl vc 6) in
                Ok [byteOfZ (Z.shiftr val 16); byteOfZ (Z.shiftr val 8)]
              else Err "illegal base64 data"
          | None, _ =>
              if isPad c && isPad d && match rest with [] => true | _ => false end then
                let val := Z.lor (Z.shiftl va 18) (Z.shiftl vb 12) in
                Ok [byteOfZ (Z.shiftr val 16)]
              else Err "illegal base64 data"
          end
      | _, _ => Err "illegal base64 data"
      end
  | _ => Err "illegal base64 data"
  end.

Definition isNewline (c : byte) : bool :=
  Byte.eqb c "010"%byte || Byte.eqb c "013"%byte.

(** [base64.StdEncoding.DecodeString]. *)
Definition DecodeString (s : string) : result (list byte) :=
  decodeQuanta (List.filter (fun c => negb (isNewline c)) (list_byte_of_string s)).

(** The first loop of [FromChunk]: the substrings that decode to something. *)
Fixpoint decodeAll (encodedSubstrings : list string)
  (decodedSubstrings : gmap string (list byte)) : gmap string (list byte) :=
  match encodedSubstrings with
  | [] => decodedSubstrings
  | str :: rest =>
      match DecodeString str with
      | Ok dec =>
          if 0 <? len dec then decodeAll rest (<[str := dec]> decodedSubstrings)
          else decodeAll rest decodedSubstrings
      | Err _ => decodeAll rest decodedSubstrings
      end
  end.

(** The second loop: the state is the result buffer and [start]. *)
Fixpoint rewrite (data : list byte) (encodedSubstrings : list string)
  (decodedSubstrings : gmap string (list byte))
  (result : list byte) (start : Z) : list byte * Z :=
  match encodedSubstrings with
  | [] => (result, start)
  | encoded :: rest =>
      match decodedSubstrings !! encoded with
      | Some decoded =>
          let end_ := Index (sliceFrom data start) (list_byte_of_string encoded) in
          if negb (end_ =? -1) then
            rewrite data rest decodedSubstrings
              (result ++ slice data start (start + end_) ++ decoded)
              (start + end_ + len (list_byte_of_string encoded))
          else rewrite data rest decodedSubstrings result start
      | None => rewrite data rest decodedSubstrings result start
      end
  end.

(** What the decoder computes from the bytes of a chunk: the rewritten
    bytes, or nothing when no substring decodes. *)
Definition decoded (data : list byte) : option (list byte) :=
  let encodedSubstrings := getSubstringsOfCharacterSet data 20 in
  let decodedSubstrings := decodeAll encodedSubstrings ∅ in
  if 0 <? Z.of_nat (size decodedSubstrings) then
    let '(result, start) := rewrite data encodedSubstrings decodedSubstrings [] 0 in
    Some (result ++ sliceFrom data start)
  else None.

Definition set_Data (c : Chunk) (d : loc) : Chunk :=
  mkChunk (SourceName c) (SourceID c) (SourceType c) d (Verify c).

(** [Base64.FromChunk] on the chunk behind pointer [p].  The outer [None] is
    the panic on a pointer or slice that is not in the heap; the returned
    option is the chunk pointer, [None] for nil.  The result buffer is a
    fresh array. *)
Definition FromChunk (h : Heap) (p : loc) : option (Heap * option loc) :=
  match chunks h !! p with
  | None => None
  | Some chunk =>
      match arrays h !! Data chunk with
      | None => None
      | Some data =>
          match decoded data with
          | Some result =>
              let a := fresh (dom (arrays h)) in
              Some (mkHeap (<[p := set_Data chunk a]> (chunks h))
                           (<[a := result]> (arrays h)),
                    Some p)
          | None => Some (h, None)
          end
      end
  end.

(** The decoder contract read literally: the chunk behind the argument is
    left as it was and what is returned, if anything, is another chunk. *)
Definition returns_new_chunk (h : Heap) (p : loc) : Prop :=
  forall h' r c,
    FromChunk h p = Some (h', r) -> chunks h !! p = Some c ->
    chunks h' !! p = Some c /\
    match r with
    | None => True
    | Some q => q <> p
    end.

(** A heap with one chunk whose data holds a Base64 run. *)
Definition heap0 : Heap :=
  mkHeap (<[1%positive := mkChunk "file" 1 15 1%positive true]> ∅)
         (<[1%positive :=
              list_byte_of_string "key: aGVsbG8gd29ybGQgaGVsbG8gd29ybGQ= end"]> ∅).

(** No stretch of Base64 characters in [l] is longer than the threshold. *)
Definition noLongRun (threshold : Z) (l : list byte) : Prop :=
  forall a r b, l = a ++ r ++ b -> Forall (fun c => isB64 c = true) r ->
                len r <= threshold.

(** The length of the run of Base64 characters at the end of [rest], when
    [rest] is entered with a run of [count]. *)
Fixpoint trailing (count : Z) (rest : list byte) : Z :=
  match rest with
  | [] => count
  | c :: rest' => if isB64 c then trailing (count + 1) rest' else trailing 0 rest'
  end.

(** Entered with a run of [count], [rest] completes no run above the
    threshold. *)
Fixpoint quiet (threshold count : Z) (rest : list byte) : Prop :=
  match rest with
  | [] => count <= threshold
  | c :: rest' =>
      if isB64 c then quiet threshold (count + 1) rest'
      else count <= threshold /\ quiet threshold 0 rest'
  end.

(** A digit of the Base64 alphabet. *)
Definition isDigit (c : byte) : Prop := decodeMap c <> None.

(** [l] does not end, respectively start, with a Base64 character. *)
Definition endsOutside (l : list byte) : Prop :=
  l = [] \/ exists front c, l = front ++ [c] /\ isB64 c = false.

Definition startsOutside (l : list byte) : Prop :=
  l = [] \/ exists c rest, l = c :: rest /\ isB64 c = false.

End decoders.

(** * Package engine *)

Module engine.

(** [DetectorKey] and [config.DetectorID]: detector type and version. *)
Abbreviation DetectorKey := (Z * Z)%type.

(** A detector as the engine sees it: [Type()], [Version()] (0 for a
    detector without versions) and [Keywords()]. *)
Record Detector : Type := mkDetector {
  Type_ : Z;
  Version : Z;
  Keywords : list string
}.

Definition CreateDetectorKey (d : Detector) : DetectorKey := (Type_ d, Version d).

(** *** Keyword prefilter *)

Definition lowerByte (c : byte) : byte :=
  let n := Byte.to_N c in
  if ((65 <=? n) && (n <=? 90))%N then
    match Byte.of_N (n + 32) with Some b => b | None => c end
  else c.

Definition toLower (s : list byte) : list byte := List.map lowerByte s.

(** Modelled from the spec: the Aho-Corasick core of the engine is not among
    the sources.  The automaton is built once over the lowercased keywords
    of all detectors, each keyword referring back to its detector. *)
Definition keywordTable (ds : list Detector) : list (list byte * DetectorKey) :=
  flat_map (fun d => List.map (fun kw => (toLower (list_byte_of_string kw),
                                           CreateDetectorKey d))
                              (Keywords d)) ds.

(** Modelled from the spec: the returned set is ordered insertion-stable. *)
Definition addKey (k : DetectorKey) (acc : list DetectorKey) : list DetectorKey :=
  if decide (k ∈ acc) then acc else acc ++ [k].

(** Modelled from the spec: a keyword hit at the current position lets its
    detector into the fan-out. *)
Definition matchHere (table : list (list byte * DetectorKey)) (suffix : list byte)
  (acc : list DetectorKey) : list DetectorKey :=
  fold_left (fun acc e => if decoders.hasPrefix suffix (fst e) then addKey (snd e) acc else acc)
            table acc.

(** Modelled from the spec: one pass over the byte positions of the chunk. *)
Fixpoint scan (table : list (list byte * DetectorKey)) (suffix : list byte)
  (acc : list DetectorKey) : list DetectorKey :=
  match suffix with
  | [] => acc
  | _ :: rest => scan table rest (matchHere table suffix acc)
  end.

(** Modelled from the spec: [find_matches(bytes)], case-insensitive. *)
Definition FindDetectorMatches (ds : list Detector) (data : list byte) : list DetectorKey :=
  scan (keywordTable ds) (toLower data) [].

(** Modelled from the spec: the fan-out runs FromData of exactly the
    detectors returned by the prefilter. *)
Definition invoked (ds : list Detector) (data : list byte) : list Detector :=
  List.filter (fun d => bool_decide (CreateDetectorKey d ∈ FindDetectorMatches ds data)) ds.

(** [kw] occurs in [data] at some byte position. *)
Definition occurs (kw data : list byte) : Prop :=
  exists pre post, data = pre ++ kw ++ post /\ (length pre < length data)%nat.

(** One of the detector's keywords occurs in the chunk, letter case aside. *)
Definition keywordOccurs (d : Detector) (data : list byte) : Prop :=
  exists kw, In kw (Keywords d) /\
             occurs (toLower (list_byte_of_string kw)) (toLower data).

(** *** Duplicates within a chunk's fan-out *)

(** [chunkSecretKey]: the raw secret and the key of the detector. *)
Abbreviation chunkSecretKey := (string * DetectorKey)%type.

Definition isSubstring (a b : list byte) : bool := 0 <=? decoders.Index b a.

Definition substringOf (a b : list byte) : Prop :=
  exists pre post, b = pre ++ a ++ post.

Section Duplicates.

(** The small constant bounding the length difference, and the delimiter
    characters trimmed before comparing; the spec leaves both open. *)
Variable maxLengthDifference : Z.
Variable delimiters : list byte.

Definition trim (s : list byte) : list byte :=
  decoders.TrimRight (decoders.TrimLeft s delimiters) delimiters.

(** Modelled from the spec: the bounded similarity of two raw strings. *)
Definition similar (a b : string) : bool :=
  let a := list_byte_of_string a in
  let b := list_byte_of_string b in
  (Z.abs (len a - len b) <=? maxLengthDifference) &&
  (isSubstring (trim a) (trim b) || isSubstring (trim b) (trim a)).

(** Modelled from the spec: when a candidate is a duplicate of one stored
    secret. *)
Definition duplicateOf (val stored : chunkSecretKey) : bool :=
  if decide (snd val = snd stored) then bool_decide (fst val = fst stored)
  else similar (fst val) (fst stored).

(** Modelled from the spec: [likelyDuplicate] is not among the sources; the
    candidate is compared with every secret stored for the chunk. *)
Definition likelyDuplicate (val : chunkSecretKey) (dupes : gset chunkSecretKey) : bool :=
  existsb (duplicateOf val) (elements dupes).

(** The duplicate relation in the words of the specification. *)
Definition duplicateRelation (val stored : chunkSecretKey) : Prop :=
  (snd val = snd stored /\ fst val = fst stored) \/
  (snd val <> snd stored /\
   Z.abs (len (list_byte_of_string (fst val)) - len (list_byte_of_string (fst stored)))
     <= maxLengthDifference /\
   (substringOf (trim (list_byte_of_string (fst val))) (trim (list_byte_of_string (fst stored))) \/
    substringOf (trim (list_byte_of_string (fst stored))) (trim (list_byte_of_string (fst val))))).

End Duplicates.

(** *** Verification overrides *)

(** Modelled from the spec: [shouldVerifyChunk] is not among the sources.
    An override entry for the detector's exact key, or else the wildcard
    entry (version 0) of its type, decides; without one the chunk's verify
    flag does. *)
Definition shouldVerifyChunk (sourceVerify : bool) (detector : Detector)
  (detectorVerificationOverrides : gmap DetectorKey bool) : bool :=
  match detectorVerificationOverrides !! (Type_ detector, Version detector) with
  | Some detectorVerify => detectorVerify
  | None =>
      match detectorVerificationOverrides !! (Type_ detector, 0) with
      | Some detectorVerify => detectorVerify
      | None => sourceVerify
      end
  end.

(** An override key matches a detector exactly or as the wildcard of its
    type. *)
Definition matchesDetector (k : DetectorKey) (d : Detector) : Prop :=
  fst k = Type_ d /\ (snd k = Version d \/ snd k = 0).

(** The detectors and strings of the tests. *)
Definition DetectorType_Gitlab : Z := 9.

Definition gitlabV2 : Detector := mkDetector DetectorType_Gitlab 2 ["gitlab"%string].

Definition detectorA : DetectorKey := (2, 0).
Definition detectorB : DetectorKey := (3, 0).

Definition postmanKey : string :=
  "PMAK-qnwfsLyRSyfCwfpHaQP1UzDhrgpWvHjbYzjpRCMshjt417zWcrzyHUArs7r".
Definition postmanKeyBare : string :=
  "qnwfsLyRSyfCwfpHaQP1UzDhrgpWvHjbYzjpRCMshjt417zWcrzyHUArs7r".

Definition sampleDelimiters : list byte := list_byte_of_string " '`=:-".

End engine.

(** * Package gitparse *)

Module gitparse.

(** [bytes.Equal]. *)
Fixpoint Equal (a b : list byte) : bool :=
  match a, b with
  | [], [] => true
  | x :: a', y :: b' => Byte.eqb x y && Equal a' b'
  | _, _ => false
  end.

Definition lit (s : string) : list byte := list_byte_of_string s.

Definition isDateLine (line : list byte) : bool :=
  (7 <? len line) && Equal (firstn 5 line) (lit "Date:").

Definition isAuthorLine (line : list byte) : bool :=
  (8 <? len line) && Equal (firstn 7 line) (lit "Author:").

Definition isCommitLine (line : list byte) : bool :=
  (7 <? len line) && Equal (firstn 6 line) (lit "commit").

Definition isDiffLine (line : list byte) : bool :=
  (5 <? len line) && Equal (firstn 4 line) (lit "diff").

Definition isIndexLine (line : list byte) : bool :=
  (6 <? len line) && Equal (firstn 5 line) (lit "index").

Definition isModeLine (line : list byte) : bool :=
  (13 <? len line) && Equal (firstn 13 line) (lit "new file mode").

Definition isMinusFileLine (line : list byte) : bool :=
  (3 <? len line) && Equal (firstn 3 line) (lit "---").

Definition isPlusFileLine (line : list byte) : bool :=
  (3 <? len line) && Equal (firstn 3 line) (lit "+++").

Definition isPlusDiffLine (line : list byte) : bool :=
  (1 <=? len line) && Equal (firstn 1 line) (lit "+").

Definition isMinusDiffLine (line : list byte) : bool :=
  (1 <=? len line) && Equal (firstn 1 line) (lit "-").

Definition isMessageLine (line : list byte) : bool :=
  (4 <? len line) && Equal (firstn 4 line) (lit "    ").

Definition isBinaryLine (line : list byte) : bool :=
  (7 <? len line) && Equal (firstn 6 line) (lit "Binary").

(** The slice expressions [s[i:]] and [s[i:j]]; [None] is the run-time
    panic on indices out of range. *)
Definition sliceFrom (s : list byte) (i : Z) : option (list byte) :=
  if (0 <=? i) && (i <=? len s) then Some (skipn (Z.to_nat i) s) else None.

Definition slice (s : list byte) (i j : Z) : option (list byte) :=
  if (0 <=? i) && (i <=? j) && (j <=? len s)
  then Some (firstn (Z.to_nat (j - i)) (skipn (Z.to_nat i) s))
  else None.

(** [bytes.Split] for a non-empty separator: cut at the first occurrence
    and go on behind it. *)
Fixpoint SplitN (fuel : nat) (s sep : list byte) : list (list byte) :=
  match fuel with
  | O => [s]
  | S fuel' =>
      let i := decoders.Index s sep in
      if i <? 0 then [s]
      else firstn (Z.to_nat i) s
             :: SplitN fuel' (skipn (Z.to_nat (i + len sep)) s) sep
  end.

Definition Split (s sep : list byte) : list (list byte) :=
  SplitN (length s) s sep.

(** [pathFromBinaryLine]: the path between "b/" and " differ" of the second
    part, the empty string when the line does not split in two. *)
Definition pathFromBinaryLine (line : list byte) : option string :=
  match Split line (lit " and ") with
  | [_; bRaw] =>
      match slice bRaw 2 (len bRaw - 7) with
      | Some path => Some (string_of_list_byte path)
      | None => None
      end
  | _ => Some ""%string
  end.

(** [Diff]. *)
Record Diff : Type := mkDiff {
  PathA : string;
  PathB : string;
  LineStart : Z;
  Content : list byte;
  IsBinary : bool
}.

Definition Diff0 : Diff := mkDiff "" "" 0 [] false.

Section Parser.

(** [time.Time], its zero value, [time.Parse] (the zero time when the value
    does not parse) and [strings.TrimSpace] of the Go library. *)
Variable Time : Type.
Variable zeroTime : Time.
Variable timeParse : string -> string -> Time.
Variable TrimSpace : string -> string.

Definition DateFormat : string := "Mon Jan 02 15:04:05 2006 -0700".

(** [Commit]. *)
Record Commit : Type := mkCommit {
  Hash : string;
  Author : string;
  Date : Time;
  Message : list byte;
  Diffs : list Diff
}.

Definition Commit0 : Commit := mkCommit "" "" zeroTime [] [].

(** The variables of the reading goroutine and what it has sent on
    [commitChan] so far. *)
Record State : Type := mkState {
  currentCommit : option Commit;
  currentDiff : option Diff;
  sent : list Commit
}.

Definition state0 : State := mkState None None [].

Definition addDiff (c : Commit) (d : Diff) : Commit :=
  mkCommit (Hash c) (Author c) (Date c) (Message c) (Diffs c ++ [d]).

(** The hash taken from a commit line. *)
Definition hashOf (line : list byte) : string :=
  if 47 <=? len line
  then string_of_list_byte (firstn 40 (skipn 7 line))
  else ""%string.

(** One turn of the reading loop; [None] is a run-time panic (nil pointer
    or slice bounds). *)
Definition step (st : State) (line : list byte) : option State :=
  if isCommitLine line then
    let flushed :=
      match currentDiff st with
      | Some d =>
          match currentCommit st with
          | Some c => Some (Some (addDiff c d))
          | None => None
          end
      | None => Some (currentCommit st)
      end in
    match flushed with
    | None => None
    | Some cc =>
        let out := match cc with Some c => sent st ++ [c] | None => sent st end in
        Some (mkState (Some (mkCommit (hashOf line) "" zeroTime [] []))
                      (Some Diff0) out)
    end
  else if isAuthorLine line then
    match currentCommit st, sliceFrom line 8 with
    | Some c, Some a =>
        Some (mkState (Some (mkCommit (Hash c) (string_of_list_byte a) (Date c)
                                      (Message c) (Diffs c)))
                      (currentDiff st) (sent st))
    | _, _ => None
    end
  else if isDateLine line then
    match currentCommit st, sliceFrom line 6 with
    | Some c, Some v =>
        let date := timeParse DateFormat (TrimSpace (string_of_list_byte v)) in
        Some (mkState (Some (mkCommit (Hash c) (Author c) date (Message c) (Diffs c)))
                      (currentDiff st) (sent st))
    | _, _ => None
    end
  else if isDiffLine line then
    match currentDiff st with
    | Some d =>
        match currentCommit st with
        | Some c => Some (mkState (Some (addDiff c d)) (Some Diff0) (sent st))
        | None => None
        end
    | None => Some (mkState (currentCommit st) (Some Diff0) (sent st))
    end
  else if isModeLine line then Some st
  else if isIndexLine line then Some st
  else if isPlusFileLine line then
    match sliceFrom line 6, currentDiff st with
    | Some v, Some d =>
        let path := string_of_list_byte (decoders.TrimRight v (lit (String "010" ""))) in
        Some (mkState (currentCommit st)
                      (Some (mkDiff (PathA d) path (LineStart d) (Content d) (IsBinary d)))
                      (sent st))
    | _, _ => None
    end
  else if isMinusFileLine line then
    match sliceFrom line 6, currentDiff st with
    | Some v, Some d =>
        let path := string_of_list_byte (decoders.TrimRight v (lit (String "010" ""))) in
        Some (mkState (currentCommit st)
                      (Some (mkDiff path (PathB d) (LineStart d) (Content d) (IsBinary d)))
                      (sent st))
    | _, _ => None
    end
  else if isPlusDiffLine line then
    match currentDiff st, sliceFrom line 1 with
    | Some d, Some v =>
        Some (mkState (currentCommit st)
                      (Some (mkDiff (PathA d) (PathB d) (LineStart d) (Content d ++ v)
                                    (IsBinary d)))
                      (sent st))
    | _, _ => None
    end
  else if isMinusDiffLine line then Some st
  else if isMessageLine line then
    match currentCommit st, sliceFrom line 4 with
    | Some c, Some v =>
        Some (mkState (Some (mkCommit (Hash c) (Author c) (Date c) (Message c ++ v)
                                      (Diffs c)))
                      (currentDiff st) (sent st))
    | _, _ => None
    end
  else if isBinaryLine line then
    match currentDiff st, pathFromBinaryLine line with
    | Some d, Some path =>
        Some (mkState (currentCommit st)
                      (Some (mkDiff (PathA d) path (LineStart d) (Content d) true))
                      (sent st))
    | _, _ => None
    end
  else Some st.

(** The loop over the lines read from [git log]. *)
Fixpoint loop (st : State) (lines : list (list byte)) : option State :=
  match lines with
  | [] => Some st
  | line :: rest =>
      match step st line with
      | Some st' => loop st' rest
      | None => None
      end
  end.

(** What happens after the last line: the pending diff is kept when it has
    content, the pending commit is sent. *)
Definition finish (st : State) : option (list Commit) :=
  let flushed :=
    match currentDiff st with
    | Some d =>
        if 0 <? len (Content d) then
          match currentCommit st with
          | Some c => Some (Some (addDiff c d))
          | None => None
          end
        else Some (currentCommit st)
    | None => Some (currentCommit st)
    end in
  match flushed with
  | None => None
  | Some (Some c) => Some (sent st ++ [c])
  | Some None => Some (sent st)
  end.

(** Everything [RepoPath] sends on the channel for the given lines. *)
Definition parse (lines : list (list byte)) : option (list Commit) :=
  match loop state0 lines with
  | Some st => finish st
  | None => None
  end.

(** The hashes of the commits sent so far, the pending one last; defined
    while both a commit and a diff are pending. *)
Definition hashes_so_far (st : State) : option (list string) :=
  match currentCommit st, currentDiff st with
  | Some c, Some _ => Some (List.map Hash (sent st) ++ [Hash c])
  | _, _ => None
  end.

(** The lines on which the slice expressions of the loop are in range. *)
Definition safeLine (line : list byte) : Prop :=
  (isPlusFileLine line = true -> 6 <= len line) /\
  (isMinusFileLine line = true -> 6 <= len line) /\
  (isBinaryLine line = true -> pathFromBinaryLine line <> None).

End Parser.

End gitparse.

(** * Package common *)

Module common.

(** [AddStringSliceItem]: append unless the item is there already. *)
Fixpoint contains (item : string) (slice : list string) : bool :=
  match slice with
  | [] => false
  | i :: rest => if String.eqb i item then true else contains item rest
  end.

Definition AddStringSliceItem (item : string) (slice : list string) : list string :=
  if contains item slice then slice else slice ++ [item].

(** The loop of [RemoveStringSliceItem].  The range clause fixes the number
    of turns at the original length and reads element [i] of the backing
    array [arr] at each turn, while the body shortens the slice to [n]
    elements and overwrites the array.  [None] is the index-out-of-range
    panic of indexing the slice at [i] once [i] is no longer below the
    current length. *)
Fixpoint removeLoop (item : string) (turns : nat) (i : nat)
  (arr : list string) (n : nat) : option (list string * nat) :=
  match turns with
  | O => Some (arr, n)
  | S turns' =>
      match arr !! i with
      | None => None
      | Some listItem =>
          if String.eqb item listItem then
            if (i <? n)%nat then
              match arr !! (n - 1)%nat with
              | Some last =>
                  removeLoop item turns' (S i) (<[i := last]> arr) (n - 1)%nat
              | None => None
              end
            else None
          else removeLoop item turns' (S i) arr n
      end
  end.

Definition RemoveStringSliceItem (item : string) (slice : list string)
  : option (list string) :=
  match removeLoop item (length slice) 0 slice (length slice) with
  | Some (arr, n) => Some (firstn n arr)
  | None => None
  end.

End common.

(** * Package engine: the detector selection of detectors.go *)

Module detectors_selection.

(** [strings.TrimLeft(s, "*")]. *)
Fixpoint trimStars (s : string) : string :=
  match s with
  | String c rest => if Ascii.eqb c "*"%char then trimStars rest else s
  | EmptyString => EmptyString
  end.

(** [strings.LastIndex(s, ".")] together with [s[:idx]]: the part before
    the last dot; [None] is the panic of slicing with index [-1]. *)
Fixpoint beforeLastDot (s : string) : option string :=
  match s with
  | EmptyString => None
  | String c rest =>
      match beforeLastDot rest with
      | Some pre => Some (String c pre)
      | None => if Ascii.eqb c "."%char then Some EmptyString else None
      end
  end.

Section Selection.

(** [strings.ToLower]. *)
Variable ToLower : string -> string.

(** A detector is known here by [reflect.TypeOf(d).String()]. *)
Definition setDetectors (dts : list string) : gset string :=
  fold_left (fun valid d => {[ ToLower d ]} ∪ valid) dts ∅.

Fixpoint filterLoop (defaultDetectors : list string) (configured : gset string)
  (ds : list string) : option (list string) :=
  match defaultDetectors with
  | [] => Some ds
  | d :: rest =>
      match beforeLastDot (trimStars d) with
      | None => None
      | Some dt =>
          if decide (dt ∈ configured) then filterLoop rest configured (ds ++ [d])
          else filterLoop rest configured ds
      end
  end.

Definition filterDetectors (dts : list string) (defaultDetectors : list string)
  (configured : gset string) : option (list string) :=
  filterLoop defaultDetectors configured [].

Definition Detectors (defaultDetectors : list string) (dts : list string)
  : option (list string) :=
  if (length dts =? 0)%nat then Some defaultDetectors
  else
    let configured := setDetectors dts in
    if (size configured =? 0)%nat then Some defaultDetectors
    else filterDetectors dts defaultDetectors configured.

End Selection.

End detectors_selection.

(** * Properties *)

(** ** Integer and length facts *)

Lemma len_nonneg {A} (l : list A) : 0 <= len l.
Proof. unfold len. lia. Qed.

Lemma len_app {A} (l k : list A) : len (l ++ k) = len l + len k.
Proof. unfold len. rewrite length_app. lia. Qed.

Lemma len_nil {A} : len (@nil A) = 0.
Proof. reflexivity. Qed.

Lemma uint64_small z : 0 <= z < 2 ^ 64 -> uint64 z = z.
Proof. intros H. unfold uint64. now apply Z.mod_small. Qed.

Lemma uint64_len {A} (l : list A) : fits_int l -> uint64 (len l) = len l.
Proof.
  intros H. apply uint64_small. unfold fits_int in H.
  pose proof (len_nonneg l). lia.
Qed.

(** ** bufferedfilewriter: the threshold rule *)

Section Writer.

Import bufferedfilewriter.

Variable t : Z.
Hypothesis t_range : 0 <= t < 2 ^ 64.

(** A write that fits goes to the buffer and leaves the system alone. *)
Lemma Write_fits w os d :
  threshold w = t -> len (buf w) + len d <= t ->
  Write w os d = (Ok (len d), deferred (uint64 (len d)) (set_buf w (buf w ++ d)), os).
Proof.
  intros Ht Hle. unfold Write.
  pose proof (len_nonneg (buf w)). pose proof (len_nonneg d).
  rewrite (uint64_small (len d)) by lia.
  rewrite (uint64_small (len (buf w))) by lia.
  rewrite uint64_small by lia.
  rewrite Ht. destruct (Z.leb_spec (len (buf w) + len d) t); [reflexivity | lia].
Qed.

(** A write that does not fit fails the buffer test. *)
Lemma Write_test_exceeds w (d : list byte) :
  threshold w = t -> fits_int (buf w) -> fits_int d ->
  t < len (buf w) + len d ->
  (uint64 (uint64 (len (buf w)) + uint64 (len d)) <=? threshold w) = false.
Proof.
  intros Ht Hb Hd Hlt.
  pose proof (len_nonneg (buf w)). pose proof (len_nonneg d).
  rewrite !uint64_len by assumption.
  unfold fits_int in *.
  rewrite uint64_small by lia.
  rewrite Ht. apply Z.leb_gt. lia.
Qed.

(** While the running total stays within the threshold nothing but the
    buffer changes. *)
Lemma WriteAll_within ds : forall w os,
  threshold w = t -> within t (len (buf w)) ds ->
  exists w',
    WriteAll w os ds = Ok (w', os) /\
    buf w' = buf w ++ concat ds /\
    file w' = file w /\ filename w' = filename w /\ threshold w' = t.
Proof.
  induction ds as [|d ds IH]; intros w os Ht Hw; simpl.
  - exists w. rewrite app_nil_r. auto.
  - destruct Hw as [Hle Hrest].
    rewrite (Write_fits w os d Ht Hle).
    destruct (IH (deferred (uint64 (len d)) (set_buf w (buf w ++ d))) os) as (w' & HW & Hb & Hf & Hn & Hth).
    + exact Ht.
    + simpl. rewrite len_app. exact Hrest.
    + exists w'. rewrite HW. simpl in *. rewrite Hb, <- app_assoc. auto.
Qed.

(** The write that crosses the threshold, on a writer without a file. *)
Lemma Write_spills w os d f os1 :
  threshold w = t -> file w = None ->
  fits_int (buf w) -> fits_int d ->
  t < len (buf w) + len d ->
  CreateTemp os = Ok (f, os1) ->
  exists w',
    Write w os d = (Ok (len d), w', mkOS (<[fname f := buf w ++ d]> (files os)) (tmpnames os1)) /\
    buf w' = [] /\ file w' = Some f /\ filename w' = fname f /\
    threshold w' = t /\ closed f = false /\ files os !! fname f = None.
Proof.
  intros Ht Hf Hb Hd Hlt Hc. unfold Write.
  rewrite (Write_test_exceeds w d Ht Hb Hd Hlt), Hf, Hc.
  unfold CreateTemp in Hc.
  destruct (tmpnames os) as [|nm rest]; [discriminate|].
  destruct (files os !! nm) eqn:Hnm; [discriminate|].
  injection Hc as <- <-. simpl.
  destruct (Z.ltb_spec 0 (len (buf w))) as [Hpos|Hz].
  - unfold fileWrite. simpl. rewrite lookup_insert_eq. simpl.
    rewrite lookup_insert_eq. rewrite !insert_insert_eq.
    eexists. split; [reflexivity|]. simpl. auto 10.
  - assert (buf w = []) as Hnil.
    { destruct (buf w); [reflexivity|]. unfold len in Hz. simpl in Hz. lia. }
    unfold fileWrite. simpl. rewrite lookup_insert_eq. rewrite insert_insert_eq.
    rewrite Hnil. simpl.
    eexists. split; [reflexivity|]. simpl. auto 10.
Qed.

(** Once the file exists: a write that overflows the buffer test is appended
    to the file, one that passes it is kept in the buffer. *)
Lemma Write_after_spill w os d f c :
  threshold w = t -> file w = Some f -> closed f = false ->
  files os !! fname f = Some c ->
  fits_int (buf w) -> fits_int d ->
  (t < len (buf w) + len d ->
     exists w', Write w os d = (Ok (len d), w', mkOS (<[fname f := c ++ d]> (files os)) (tmpnames os)) /\
                buf w' = buf w /\ file w' = Some f) /\
  (len (buf w) + len d <= t ->
     exists w', Write w os d = (Ok (len d), w', os) /\
                buf w' = buf w ++ d /\ file w' = Some f).
Proof.
  intros Ht Hf Hcl Hc Hb Hd. split; intros Hcmp.
  - unfold Write. rewrite (Write_test_exceeds w d Ht Hb Hd Hcmp), Hf.
    unfold fileWrite. rewrite Hcl, Hc.
    eexists. split; [reflexivity|]. simpl. auto.
  - rewrite (Write_fits w os d Ht Hcmp).
    eexists. split; [reflexivity|]. simpl. auto.
Qed.

End Writer.

Section WriterSequences.

Import bufferedfilewriter.

Lemma total_cons d ds : total (d :: ds) = len d + total ds.
Proof. unfold total. simpl. apply len_app. Qed.

Lemma total_nonneg ds : 0 <= total ds.
Proof. apply len_nonneg. Qed.

Lemma within_total t ds : forall acc, acc + total ds <= t -> within t acc ds.
Proof.
  induction ds as [|d ds IH]; intros acc H; simpl; [exact I|].
  rewrite total_cons in H. pose proof (total_nonneg ds).
  split; [lia|]. apply IH. lia.
Qed.

(** X1.  Sequences that stay within the threshold read back as written. *)
Lemma roundtrip_buffered t os ds :
  0 <= t < 2 ^ 64 -> total ds <= t ->
  roundtrip (New (Some t)) os ds = Ok (concat ds).
Proof.
  intros Ht Hle. unfold roundtrip.
  destruct (WriteAll_within t Ht ds (New (Some t)) os eq_refl) as (w' & HW & Hb & Hf & _).
  { apply within_total. simpl. rewrite len_nil. lia. }
  rewrite HW. unfold Close, ReadCloser. rewrite Hf. simpl. rewrite Hf.
  simpl. now rewrite Hb.
Qed.




(** C10 at the failing run: threshold 2, writes "abc", "d", "efg", then
    Close and ReadCloser.  The reader yields "abcefgd", not the written
    order "abcdefg". *)
Theorem C10_roundtrip_reorders :
  roundtrip (New (Some 2)) os0 [bytes "abc"; bytes "d"; bytes "efg"]
    = Ok (bytes "abcefgd") /\
  bytes "abcefgd" <> concat [bytes "abc"; bytes "d"; bytes "efg"].
Proof. split; [vm_compute; reflexivity | vm_compute; discriminate]. Qed.

End WriterSequences.

(** ** main: the results filter *)

Section ResultsFilter.

Import main.

Variable ToLower : string -> string.

Lemma valid_value_spec v : valid_value v = true <-> is_category v.
Proof.
  unfold valid_value, is_category.
  rewrite !orb_true_iff, !String.eqb_eq. tauto.
Qed.

Lemma parseValues_ok values : forall acc,
  Forall is_category values ->
  exists set, parseValues values acc = Ok set /\
              forall c, c ∈ set <-> (In c values \/ c ∈ acc).
Proof.
  induction values as [|v values IH]; intros acc HF; simpl.
  - exists acc. split; [reflexivity|]. intros c. tauto.
  - inversion HF as [|? ? Hv HF']; subst.
    apply valid_value_spec in Hv. rewrite Hv.
    destruct (IH ({[ v ]} ∪ acc) HF') as (set & Hp & Hset).
    exists set. split; [exact Hp|].
    intros c. rewrite Hset, elem_of_union, elem_of_singleton.
    split; [intros [H|[H|H]] | intros [[H|H]|H]]; auto.
Qed.

Lemma parseValues_inv values : forall acc set,
  parseValues values acc = Ok set -> Forall is_category values.
Proof.
  induction values as [|v values IH]; intros acc set H; simpl in H.
  - constructor.
  - destruct (valid_value v) eqn:Hv; [|discriminate].
    constructor; [now apply valid_value_spec | exact (IH _ _ H)].
Qed.

Lemma parseValues_err values : forall acc,
  ~ Forall is_category values -> exists e, parseValues values acc = Err e.
Proof.
  induction values as [|v values IH]; intros acc HF; simpl.
  - exfalso. apply HF. constructor.
  - destruct (valid_value v) eqn:Hv.
    + apply IH. intros HF'. apply HF. constructor; [|exact HF'].
      now apply valid_value_spec.
    + eexists. reflexivity.
Qed.

(** C9.  Parsing the results filter: the empty input gives no filter at all
    (nil, which lets every category through); any other input succeeds
    exactly when every comma-separated item of the lowercased input is one of
    verified, unknown, unverified, filtered_unverified, giving the set of
    these items, and is an error otherwise. *)
Theorem C9_parseResults (input : string) :
  (input = ""%string ->
     parseResults ToLower input = Ok None /\ forall c, passes None c) /\
  (input <> ""%string ->
     (Forall is_category (Split (ToLower input) ","%char) ->
        exists set, parseResults ToLower input = Ok (Some set) /\
                    forall c, c ∈ set <-> In c (Split (ToLower input) ","%char)) /\
     (~ Forall is_category (Split (ToLower input) ","%char) ->
        exists e, parseResults ToLower input = Err e) /\
     (is_ok (parseResults ToLower input) = true <->
        Forall is_category (Split (ToLower input) ","%char))).
Proof.
  split.
  - intros ->. split; [reflexivity|]. intros c. exact I.
  - intros Hne. unfold parseResults.
    destruct (String.eqb input "") eqn:He; [apply String.eqb_eq in He; contradiction|].
    assert (Hok : Forall is_category (Split (ToLower input) ","%char) ->
        exists set, match parseValues (Split (ToLower input) ","%char) ∅ with
                    | Ok set => Ok (Some set) | Err e => Err e end = Ok (Some set) /\
                    forall c, c ∈ set <-> In c (Split (ToLower input) ","%char)).
    { intros HF. destruct (parseValues_ok _ ∅ HF) as (set & Hp & Hset).
      exists set. rewrite Hp. split; [reflexivity|].
      intros c. rewrite Hset. split; [intros [H|H]|auto]; [exact H|].
      now apply not_elem_of_empty in H. }
    assert (Herr : ~ Forall is_category (Split (ToLower input) ","%char) ->
        exists e, match parseValues (Split (ToLower input) ","%char) ∅ with
                  | Ok set => Ok (Some set) | Err e => Err e end
                  = (Err e : result (option (gset string)))).
    { intros HF. destruct (parseValues_err _ ∅ HF) as (e & Hp).
      exists e. now rewrite Hp. }
    split; [exact Hok|]. split; [exact Herr|].
    split.
    + intros Hisok.
      destruct (parseValues (Split (ToLower input) ","%char) ∅) as [set|e] eqn:Hp;
        [|discriminate].
      exact (parseValues_inv _ _ _ Hp).
    + intros HF. destruct (Hok HF) as (set & Hp & _). now rewrite Hp.
Qed.

End ResultsFilter.

(** The filter "Verified,UNKNOWN" parses to the two lowercased categories. *)
Lemma C9_parseResults_witness :
  exists set, main.parseResults main.asciiToLower "Verified,UNKNOWN" = Ok (Some set) /\
              forall c, c ∈ set <-> In c ["verified"%string; "unknown"%string].
Proof.
  destruct (C9_parseResults main.asciiToLower "Verified,UNKNOWN") as [_ H].
  destruct H as (Hok & _); [discriminate|].
  apply Hok.
  change (Forall main.is_category ["verified"%string; "unknown"%string]).
  constructor; [left; reflexivity|].
  constructor; [right; left; reflexivity|].
  constructor.
Defined.

(** ** main: base-commit ordering and exit codes *)

Section Run.

Import main.

Variable ToLower : string -> string.
Variable configRead : string -> result (list string).
Variable overseerErr : option string.

Lemma pinnedConcurrency_since f :
  gitScanSinceCommit f <> ""%string -> pinnedConcurrency f = 1.
Proof.
  intros H. unfold pinnedConcurrency.
  destruct (String.eqb (gitScanSinceCommit f) "") eqn:He; [|reflexivity].
  apply String.eqb_eq in He. contradiction.
Qed.

(** C8.  When [--since-commit] is given, every scan configuration handed to
    the engine has concurrency 1, the source manager is built with
    [WithConcurrentSources(1)] and [WithConcurrentUnits(1)], and the outcome
    of the process depends on the engine only through such calls. *)
Theorem C8_since_commit_pins_concurrency (f : Flags) (cmd : string) :
  gitScanSinceCommit f <> ""%string ->
  (forall detectors parsedResults,
     Forall (fun cfg =>
               Concurrency cfg = 1 /\
               firstn 2 (sourceManagerOpts cfg (jobReportFile f))
                 = [WithConcurrentSources 1; WithConcurrentUnits 1])
            (scansOf f detectors parsedResults)) /\
  (forall E1 E2 : list SourceManagerOpt -> Config -> string -> result EngineReport,
     (forall opts cfg c,
        Concurrency cfg = 1 ->
        firstn 2 opts = [WithConcurrentSources 1; WithConcurrentUnits 1] ->
        E1 opts cfg c = E2 opts cfg c) ->
     main ToLower configRead E1 overseerErr f cmd
       = main ToLower configRead E2 overseerErr f cmd).
Proof.
  intros Hsince. pose proof (pinnedConcurrency_since f Hsince) as Hpin.
  split.
  - intros detectors parsedResults. unfold scansOf.
    destruct (compareDetectionStrategies f); repeat constructor;
      simpl; now rewrite ?Hpin.
  - intros E1 E2 HE.
    assert (Hscan : forall cfg, Concurrency cfg = 1 ->
              runSingleScan E1 f cmd cfg = runSingleScan E2 f cmd cfg).
    { intros cfg Hc. unfold runSingleScan. rewrite (HE _ cfg cmd Hc); [reflexivity|].
      simpl. now rewrite Hc. }
    unfold main, run.
    destruct (loadConfig configRead f) as [detectors|e]; [|reflexivity].
    destruct (parseResults ToLower (resultsFlag f)) as [parsed|e]; [|reflexivity].
    unfold compareScans.
    rewrite (Hscan (engConf f detectors parsed)) by exact Hpin.
    rewrite (Hscan (withEntireChunk (engConf f detectors parsed))) by exact Hpin.
    reflexivity.
Qed.

End Run.

(** A git scan since commit "abc123": whatever [--concurrency] said, the
    scan runs with concurrency 1. *)
Lemma C8_since_commit_witness :
  Forall (fun cfg =>
            main.Concurrency cfg = 1 /\
            firstn 2 (main.sourceManagerOpts cfg false)
              = [main.WithConcurrentSources 1; main.WithConcurrentUnits 1])
         (main.scansOf (main.withSinceCommit main.flags0 "abc123") [] None).
Proof.
  destruct (C8_since_commit_pins_concurrency main.asciiToLower main.noConfig None
              (main.withSinceCommit main.flags0 "abc123") "git") as [H _].
  - discriminate.
  - exact (H [] None).
Defined.

Section ExitCodes.

Import main.

Variable ToLower : string -> string.
Variable configRead : string -> result (list string).
Variable engineScan : list SourceManagerOpt -> Config -> string -> result EngineReport.
Variable overseerErr : option string.

Lemma run_cases (f : Flags) (cmd : string) :
  run ToLower configRead engineScan f cmd = Exit 1 \/
  run ToLower configRead engineScan f cmd = Exit 183 \/
  run ToLower configRead engineScan f cmd = Return.
Proof.
  unfold run, logFatal.
  destruct (loadConfig configRead f); [|auto].
  destruct (parseResults ToLower (resultsFlag f)); [|auto].
  destruct (compareDetectionStrategies f).
  - destruct (compareScans engineScan f cmd _); auto.
  - destruct (runSingleScan engineScan f cmd _) as [m [e|]]; [auto|].
    destruct (hasFoundResults m && fail f); auto.
Qed.

(** [run] ends in exit status 1 exactly on the errors it passes to
    [logFatal]. *)
Lemma run_exit_1 (f : Flags) (cmd : string) :
  run ToLower configRead engineScan f cmd = Exit 1 <->
  ((exists e, loadConfig configRead f = Err e) \/
   (exists detectors,
      loadConfig configRead f = Ok detectors /\
      ((exists e, parseResults ToLower (resultsFlag f) = Err e) \/
       (exists parsedResults,
          parseResults ToLower (resultsFlag f) = Ok parsedResults /\
          let cfg := engConf f detectors parsedResults in
          if compareDetectionStrategies f
          then compareScans engineScan f cmd cfg <> None
          else snd (runSingleScan engineScan f cmd cfg) <> None)))).
Proof.
  unfold run, logFatal.
  destruct (loadConfig configRead f) as [detectors|e].
  2:{ split; [intros _; left; eauto | reflexivity]. }
  destruct (parseResults ToLower (resultsFlag f)) as [parsed|e].
  2:{ split; [intros _; right; exists detectors; split; [reflexivity|left; eauto] | reflexivity]. }
  cbv zeta.
  destruct (compareDetectionStrategies f).
  - destruct (compareScans engineScan f cmd (engConf f detectors parsed)) as [e|] eqn:Hc.
    + split; [intros _ | reflexivity].
      right. exists detectors. split; [reflexivity|]. right.
      exists parsed. split; [reflexivity|]. rewrite Hc. discriminate.
    + split; [discriminate|].
      intros [[e He]|(d & Hd & [[e He]|(p & Hp & H)])]; try discriminate.
      injection Hd as <-. injection Hp as <-. rewrite Hc in H. contradiction.
  - destruct (runSingleScan engineScan f cmd (engConf f detectors parsed)) as [m [e|]] eqn:Hs.
    + split; [intros _ | reflexivity].
      right. exists detectors. split; [reflexivity|]. right.
      exists parsed. split; [reflexivity|]. rewrite Hs. discriminate.
    + split.
      * destruct (hasFoundResults m && fail f); discriminate.
      * intros [[e He]|(d & Hd & [[e He]|(p & Hp & H)])]; try discriminate.
        injection Hd as <-. injection Hp as <-. rewrite Hs in H. simpl in H. contradiction.
Qed.

(** Outside the comparison mode [run] ends in exit status 183 exactly when
    the scan reported results and [--fail] was given. *)
Lemma run_exit_183 (f : Flags) (cmd : string) :
  compareDetectionStrategies f = false ->
  (run ToLower configRead engineScan f cmd = Exit 183 <->
   ((exists detectors parsedResults cfg,
       loadConfig configRead f = Ok detectors /\
       parseResults ToLower (resultsFlag f) = Ok parsedResults /\
       In cfg (scansOf f detectors parsedResults) /\
       reportsFound engineScan f cmd cfg = true) /\ fail f = true)).
Proof.
  intros Hcmp. unfold run, logFatal, scansOf, reportsFound, runSingleScan.
  rewrite Hcmp.
  destruct (loadConfig configRead f) as [detectors|e].
  2:{ split; [discriminate|]. intros [(d & p & c & Hd & _) _]. discriminate. }
  destruct (parseResults ToLower (resultsFlag f)) as [parsed|e].
  2:{ split; [discriminate|]. intros [(d & p & c & _ & Hp & _) _]. discriminate. }
  cbv zeta.
  destruct (engineScan _ (engConf f detectors parsed) cmd) as [rep|e] eqn:HE; simpl.
  - destruct (HasFoundResults rep) eqn:Hfound, (fail f) eqn:Hfail; simpl;
      (split; [try discriminate; intros _ | try reflexivity]).
    + split; [|reflexivity].
      exists detectors, parsed, (engConf f detectors parsed).
      repeat split; [now left|]. now rewrite HE.
    + intros [_ H]. discriminate.
    + intros [(d & p & c & Hd & Hp & [ <- | [] ] & H) _].
      injection Hd as <-. injection Hp as <-. rewrite HE in H. congruence.
    + intros [_ H]. discriminate.
  - split; [discriminate|].
    intros [(d & p & c & Hd & Hp & [ <- | [] ] & H) _].
    injection Hd as <-. injection Hp as <-. rewrite HE in H. discriminate.
Qed.

Lemma run_compare_not_183 (f : Flags) (cmd : string) :
  compareDetectionStrategies f = true ->
  run ToLower configRead engineScan f cmd <> Exit 183.
Proof.
  intros Hcmp. unfold run, logFatal. rewrite Hcmp.
  destruct (loadConfig configRead f); [|discriminate].
  destruct (parseResults ToLower (resultsFlag f)); [|discriminate].
  destruct (compareScans engineScan f cmd _); discriminate.
Qed.


End ExitCodes.



(** ** twilio: verification outcomes *)

Section Twilio.

Import twilio.

Variable FindAllString : pattern -> string -> list string.
Variable NewRequestWithContext : string -> string -> result Request.
Variable Do : nat -> Request -> result Response.

(** What each outcome of the request does to a candidate. *)
Lemma judge_spec sid key o :
  let r := judge (candidate sid key) sid key o in
  (forall res, o = Ok res ->
     (200 <= StatusCode res < 300 ->
        Verified r = true /\ verificationError r = None) /\
     (StatusCode res = 401 \/ StatusCode res = 403 ->
        Verified r = false /\ verificationError r = None) /\
     (~ 200 <= StatusCode res < 300 ->
      StatusCode res <> 401 -> StatusCode res <> 403 ->
        Verified r = false /\ verificationError r <> None)) /\
  (forall e, o = Err e -> Verified r = false /\ verificationError r <> None) /\
  (Verified r = true -> verificationError r = None).
Proof.
  cbv zeta. destruct o as [res|e]; simpl.
  - destruct ((200 <=? StatusCode res) && (StatusCode res <? 300)) eqn:H2.
    + apply andb_true_iff in H2 as [Ha Hb].
      apply Z.leb_le in Ha. apply Z.ltb_lt in Hb.
      assert (Hv : forall s1, Verified s1 = true -> verificationError s1 = None ->
                let r := match Services res with
                         | Ok (service :: _) =>
                             set_ExtraData (set_ExtraData s1 "friendly_name" (FriendlyName service))
                               "account_sid" (AccountSID service)
                         | _ => s1
                         end in
                Verified r = true /\ verificationError r = None).
      { intros s1 H1 H2. destruct (Services res) as [[|sv svs]|]; simpl; auto. }
      destruct (Hv (set_AnalysisInfo (set_Verified (candidate sid key) true)
                      (<["key"%string := key]> (<["sid"%string := sid]> ∅)))
                  eq_refl eq_refl) as [Hv1 Hv2].
      split; [|split; [discriminate | intros _; exact Hv2]].
      intros res' Hres. injection Hres as <-.
      split; [intros _; split; assumption|].
      split; [intros [H|H]; lia | intros H; lia].
    + assert (Hn : ~ 200 <= StatusCode res < 300).
      { intros [Ha Hb]. apply Z.leb_le in Ha. apply Z.ltb_lt in Hb.
        rewrite Ha, Hb in H2. discriminate. }
      destruct ((StatusCode res =? 401) || (StatusCode res =? 403)) eqn:H4.
      * apply orb_true_iff in H4. rewrite !Z.eqb_eq in H4.
        split; [|split; [discriminate | intros _; reflexivity]].
        intros res' Hres. injection Hres as <-.
        split; [intros H; contradiction|].
        split; [intros _; split; reflexivity|].
        intros _ Ha Hb. destruct H4; contradiction.
      * apply orb_false_iff in H4 as [Ha Hb].
        apply Z.eqb_neq in Ha. apply Z.eqb_neq in Hb. simpl.
        split; [|split; [discriminate | discriminate]].
        intros res' Hres. injection Hres as <-.
        split; [intros H; contradiction|].
        split; [intros [H|H]; contradiction|].
        intros _ _ _. split; [reflexivity | discriminate].
  - split; [discriminate|]. split; [|discriminate].
    intros e' _. split; [reflexivity | discriminate].
Qed.

Section Loops.

Variable S_ : list string.
Variable K_ : list string.

Local Abbreviation judged := (twilio.judged NewRequestWithContext Do S_ K_).

Lemma body_judged keys sid st key :
  In sid S_ -> In key K_ -> Forall judged (fst st) ->
  Forall judged (fst (body NewRequestWithContext Do true keys sid st key)).
Proof.
  intros Hs Hk HF. destruct st as [results n]. unfold body.
  destruct (NewRequestWithContext "GET" "https://verify.twilio.com/v2/Services")
    as [req|e] eqn:Hreq; [|exact HF].
  simpl. destruct (0 <? len keys); [|exact HF].
  apply Forall_app. split; [exact HF|].
  constructor; [|constructor].
  exists sid, key, n, req. auto.
Qed.

Lemma inner_judged keys sid : forall ks st,
  In sid S_ -> (forall k, In k ks -> In k K_) -> Forall judged (fst st) ->
  Forall judged (fst (fold_left (body NewRequestWithContext Do true keys sid) ks st)).
Proof.
  induction ks as [|k ks IH]; intros st Hs Hk HF; simpl; [exact HF|].
  apply IH; [exact Hs | intros k' Hk'; apply Hk; now right |].
  apply body_judged; [exact Hs | apply Hk; now left | exact HF].
Qed.

Lemma outer_judged keys : forall ss st,
  (forall s, In s ss -> In s S_) -> (forall k, In k keys -> In k K_) ->
  Forall judged (fst st) ->
  Forall judged
    (fst (fold_left (fun st sid => fold_left (body NewRequestWithContext Do true keys sid) keys st)
                    ss st)).
Proof.
  induction ss as [|s ss IH]; intros st Hs Hk HF; simpl; [exact HF|].
  apply IH; [intros s' Hs'; apply Hs; now right | exact Hk |].
  apply inner_judged; [apply Hs; now left | exact Hk | exact HF].
Qed.

End Loops.


End Twilio.


(** ** decoders: Base64 works on the chunk it is given *)

Section Base64.

Import decoders.

(** C5.  [Base64.FromChunk] either returns nil and leaves the
    heap as it was, or returns the very chunk it was given, whose [Data] now
    refers to a newly allocated array holding the rewritten bytes.  In both
    cases every byte array that existed before keeps its contents and no
    other chunk changes. *)
Theorem C5_base64_rewrites_in_place (h : Heap) (p : loc) (c : Chunk) (data : list byte) :
  chunks h !! p = Some c ->
  arrays h !! Data c = Some data ->
  exists h' r,
    FromChunk h p = Some (h', r) /\
    (forall l b, arrays h !! l = Some b -> arrays h' !! l = Some b) /\
    (forall q, q <> p -> chunks h' !! q = chunks h !! q) /\
    match r with
    | None => decoded data = None /\ h' = h
    | Some q =>
        q = p /\
        exists a result,
          decoded data = Some result /\
          arrays h !! a = None /\
          chunks h' !! p = Some (set_Data c a) /\
          arrays h' !! a = Some result
    end.
Proof.
  intros Hc Hd. unfold FromChunk. rewrite Hc, Hd.
  destruct (decoded data) as [result|] eqn:Hdec.
  - pose proof (is_fresh (dom (arrays h))) as Hfresh.
    apply not_elem_of_dom in Hfresh.
    eexists _, _. split; [reflexivity|]. cbn [chunks arrays].
    split.
    { intros l b Hl. rewrite lookup_insert_ne; [exact Hl|].
      intros <-. rewrite Hfresh in Hl. discriminate. }
    split.
    { intros q Hq. now rewrite lookup_insert_ne by auto. }
    split; [reflexivity|].
    exists (fresh (dom (arrays h))), result.
    split; [reflexivity|]. split; [exact Hfresh|].
    split; apply lookup_insert_eq.
  - exists h, None. auto.
Qed.

(** On the sample heap the chunk behind pointer 1 is returned with its data
    redirected to a new array; array 1 keeps the encoded bytes. *)
Lemma C5_base64_witness :
  exists h',
    FromChunk heap0 1%positive = Some (h', Some 1%positive) /\
    arrays h' !! 1%positive
      = Some (list_byte_of_string "key: aGVsbG8gd29ybGQgaGVsbG8gd29ybGQ= end").
Proof.
  assert (Hc : chunks heap0 !! 1%positive = Some (mkChunk "file" 1 15 1%positive true))
    by (vm_compute; reflexivity).
  assert (Hd : arrays heap0 !! 1%positive
               = Some (list_byte_of_string "key: aGVsbG8gd29ybGQgaGVsbG8gd29ybGQ= end"))
    by (vm_compute; reflexivity).
  destruct (C5_base64_rewrites_in_place heap0 1%positive _ _ Hc Hd)
    as (h' & r & HF & Harr & _ & Hr).
  exists h'.
  assert (Hdec : decoded (list_byte_of_string "key: aGVsbG8gd29ybGQgaGVsbG8gd29ybGQ= end")
                 = Some (list_byte_of_string "key: hello world hello world end"))
    by (vm_compute; reflexivity).
  destruct r as [q|].
  - destruct Hr as [Hq _]. rewrite Hq in HF. split; [exact HF|].
    exact (Harr _ _ Hd).
  - destruct Hr as [Hnone _]. rewrite Hdec in Hnone. discriminate Hnone.
Defined.

(** C5, read literally, does not hold: on the sample heap the decoder returns the same
    pointer and the chunk behind it no longer has the data it had. *)
Lemma C5_base64_mutates_chunk :
  ~ returns_new_chunk heap0 1%positive.
Proof.
  unfold returns_new_chunk. intros H.
  assert (HF : FromChunk heap0 1%positive
               = Some (mkHeap (<[1%positive := mkChunk "file" 1 15 2%positive true]> (chunks heap0))
                              (<[2%positive := list_byte_of_string "key: hello world hello world end"]>
                                 (arrays heap0)),
                       Some 1%positive))
    by (vm_compute; reflexivity).
  assert (Hc : chunks heap0 !! 1%positive = Some (mkChunk "file" 1 15 1%positive true))
    by (vm_compute; reflexivity).
  destruct (H _ _ _ HF Hc) as [_ Hne].
  apply Hne. exact eq_refl.
Qed.

End Base64.

(** ** engine: keyword prefilter *)

Section Prefilter.

Import engine.

Lemma hasPrefix_spec (p : list byte) : forall s,
  decoders.hasPrefix s p = true <-> exists post, s = p ++ post.
Proof.
  induction p as [|x p IH]; intros s.
  - destruct s; simpl; split; eauto.
  - destruct s as [|c s]; simpl.
    + split; [discriminate | intros [post H]; discriminate].
    + rewrite andb_true_iff, IH. split.
      * intros [Hc [post ->]]. apply Byte.byte_dec_bl in Hc. subst. eauto.
      * intros [post H]. injection H as -> ->.
        split; [now apply Byte.byte_dec_lb | eauto].
Qed.

Lemma addKey_spec k k' acc : k' ∈ addKey k acc <-> k' = k \/ k' ∈ acc.
Proof.
  unfold addKey. destruct (decide (k ∈ acc)) as [Hin|Hin].
  - split; [auto | intros [->|H]; assumption].
  - rewrite elem_of_app, list_elem_of_singleton. tauto.
Qed.

Lemma matchHere_spec suffix k : forall table acc,
  k ∈ matchHere table suffix acc <->
  k ∈ acc \/ exists kw, In (kw, k) table /\ decoders.hasPrefix suffix kw = true.
Proof.
  unfold matchHere.
  induction table as [|[kw0 k0] table IH]; intros acc; simpl.
  - split; [auto | intros [H|(kw & [] & _)]; exact H].
  - rewrite IH. split.
    + intros [H|(kw & Hin & Hp)].
      * destruct (decoders.hasPrefix suffix kw0) eqn:Hp0; [|auto].
        apply addKey_spec in H as [->|H]; [|auto].
        right. exists kw0. auto.
      * right. exists kw. auto.
    + intros [H|(kw & [Heq|Hin] & Hp)].
      * left. destruct (decoders.hasPrefix suffix kw0); [|exact H].
        apply addKey_spec. auto.
      * injection Heq as -> ->. left. rewrite Hp. apply addKey_spec. auto.
      * right. exists kw. auto.
Qed.

Lemma occurs_cons kw c rest :
  occurs kw (c :: rest) <-> decoders.hasPrefix (c :: rest) kw = true \/ occurs kw rest.
Proof.
  unfold occurs. rewrite hasPrefix_spec. split.
  - intros (pre & post & Heq & Hlen). destruct pre as [|x pre].
    + left. exists post. exact Heq.
    + right. simpl in Heq. injection Heq as -> ->.
      exists pre, post. split; [reflexivity|]. simpl in Hlen. lia.
  - intros [[post Heq]|(pre & post & -> & Hlen)].
    + exists [], post. split; [exact Heq | simpl; lia].
    + exists (c :: pre), post. split; [reflexivity | simpl; lia].
Qed.

Lemma scan_spec table k : forall sfx acc,
  k ∈ scan table sfx acc <->
  k ∈ acc \/ exists kw, In (kw, k) table /\ occurs kw sfx.
Proof.
  induction sfx as [|c rest IH]; intros acc; simpl.
  - split; [auto|]. intros [H|(kw & _ & pre & post & _ & Hlen)]; [exact H|].
    simpl in Hlen. lia.
  - rewrite IH, matchHere_spec. split.
    + intros [[H|(kw & Hin & Hp)]|(kw & Hin & Ho)]; [auto| |].
      * right. exists kw. split; [exact Hin|]. apply occurs_cons. auto.
      * right. exists kw. split; [exact Hin|]. apply occurs_cons. auto.
    + intros [H|(kw & Hin & Ho)]; [auto|].
      apply occurs_cons in Ho as [Hp|Ho].
      * left. right. exists kw. auto.
      * right. exists kw. auto.
Qed.

Lemma keywordTable_spec ds kw k :
  In (kw, k) (keywordTable ds) <->
  exists d, In d ds /\ CreateDetectorKey d = k /\
            exists w, In w (Keywords d) /\ kw = toLower (list_byte_of_string w).
Proof.
  unfold keywordTable. rewrite in_flat_map. split.
  - intros (d & Hd & Hin). apply in_map_iff in Hin as (w & Heq & Hw).
    injection Heq as <- <-. exists d. eauto.
  - intros (d & Hd & <- & w & Hw & ->). exists d. split; [exact Hd|].
    apply in_map_iff. exists w. auto.
Qed.

Lemma FindDetectorMatches_spec ds data k :
  k ∈ FindDetectorMatches ds data <->
  exists d, In d ds /\ CreateDetectorKey d = k /\ keywordOccurs d data.
Proof.
  unfold FindDetectorMatches, keywordOccurs. rewrite scan_spec. split.
  - intros [H|(kw & Hin & Ho)]; [now apply not_elem_of_nil in H|].
    apply keywordTable_spec in Hin as (d & Hd & Hk & w & Hw & ->).
    exists d. eauto.
  - intros (d & Hd & Hk & w & Hw & Ho). right.
    exists (toLower (list_byte_of_string w)). split; [|exact Ho].
    apply keywordTable_spec. exists d. eauto.
Qed.

Lemma key_injective ds d d' :
  NoDup (List.map CreateDetectorKey ds) -> In d ds -> In d' ds ->
  CreateDetectorKey d = CreateDetectorKey d' -> d = d'.
Proof.
  induction ds as [|x ds IH]; intros Hnd Hd Hd' Hk; [destruct Hd|].
  simpl in Hnd. apply NoDup_cons in Hnd as [Hx Hnd].
  assert (Hmem : forall y, In y ds -> CreateDetectorKey y ∈ List.map CreateDetectorKey ds).
  { intros y Hy. apply list_elem_of_In, in_map. exact Hy. }
  destruct Hd as [<-|Hd], Hd' as [<-|Hd'].
  - reflexivity.
  - exfalso. apply Hx. rewrite Hk. now apply Hmem.
  - exfalso. apply Hx. rewrite <- Hk. now apply Hmem.
  - now apply IH.
Qed.


End Prefilter.


(** ** engine: duplicates within a chunk's fan-out *)

Section Duplicates.

Import engine.

Variable maxLengthDifference : Z.
Variable delimiters : list byte.

Lemma Index_eq (s sep : list byte) :
  decoders.Index s sep =
  if decoders.hasPrefix s sep then 0
  else match s with
       | [] => -1
       | _ :: rest =>
           let i := decoders.Index rest sep in if i <? 0 then -1 else i + 1
       end.
Proof. destruct s; reflexivity. Qed.

Lemma Index_lower_bound (sep : list byte) : forall s, -1 <= decoders.Index s sep.
Proof.
  induction s as [|c s IH]; rewrite Index_eq.
  - destruct (decoders.hasPrefix [] sep); lia.
  - destruct (decoders.hasPrefix (c :: s) sep); [lia|]. cbv zeta.
    destruct (Z.ltb_spec (decoders.Index s sep) 0); lia.
Qed.

Lemma Index_found (sep : list byte) : forall s,
  0 <= decoders.Index s sep <-> substringOf sep s.
Proof.
  unfold substringOf.
  induction s as [|c s IH]; rewrite Index_eq.
  - destruct (decoders.hasPrefix [] sep) eqn:Hp.
    + apply hasPrefix_spec in Hp as [post Hp].
      split; [intros _ | lia]. exists [], post. exact Hp.
    + split; [lia|]. intros (pre & post & Heq).
      destruct pre; [|discriminate].
      assert (decoders.hasPrefix [] sep = true) as Hp'
        by (apply hasPrefix_spec; exists post; exact Heq).
      rewrite Hp in Hp'. discriminate.
  - destruct (decoders.hasPrefix (c :: s) sep) eqn:Hp.
    + apply hasPrefix_spec in Hp as [post Hp].
      split; [intros _ | lia]. exists [], post. exact Hp.
    + pose proof (Index_lower_bound sep s) as Hlb. cbv zeta.
      destruct (Z.ltb_spec (decoders.Index s sep) 0) as [Hneg|Hpos].
      * split; [lia|]. intros (pre & post & Heq).
        destruct pre as [|x pre].
        -- assert (decoders.hasPrefix (c :: s) sep = true) as Hp'
             by (apply hasPrefix_spec; exists post; exact Heq).
           rewrite Hp in Hp'. discriminate.
        -- simpl in Heq. injection Heq as -> ->.
           assert (0 <= decoders.Index (pre ++ sep ++ post) sep) by (apply IH; eauto).
           lia.
      * split; [intros _ | lia].
        apply IH in Hpos as (pre & post & ->). exists (c :: pre), post. reflexivity.
Qed.

Lemma isSubstring_spec (a b : list byte) : isSubstring a b = true <-> substringOf a b.
Proof. unfold isSubstring. rewrite Z.leb_le. apply Index_found. Qed.

Lemma duplicateOf_spec (val stored : chunkSecretKey) :
  duplicateOf maxLengthDifference delimiters val stored = true <->
  duplicateRelation maxLengthDifference delimiters val stored.
Proof.
  unfold duplicateOf, duplicateRelation, similar.
  destruct (decide (val.2 = stored.2)) as [Hk|Hk].
  - rewrite bool_decide_eq_true. split.
    + intros H. left. auto.
    + intros [[_ H]|[Hne _]]; [exact H | contradiction].
  - rewrite andb_true_iff, orb_true_iff, Z.leb_le, !isSubstring_spec. split.
    + intros [Hlen Hsub]. right. auto.
    + intros [[Heq _]|(_ & Hlen & Hsub)]; [contradiction | auto].
Qed.

(** C4.  A candidate is judged a duplicate exactly when some secret stored
    for the chunk has the same detector key and the same raw string, or a
    different detector key and a raw string within the bounded similarity
    (lengths differ by at most the constant and, after trimming delimiters,
    one is a substring of the other).  A different raw string under the same
    detector key is never a duplicate, however similar. *)
Theorem C4_likelyDuplicate (val : chunkSecretKey) (dupes : gset chunkSecretKey) :
  (likelyDuplicate maxLengthDifference delimiters val dupes = true <->
   exists stored, stored ∈ dupes /\
                  duplicateRelation maxLengthDifference delimiters val stored) /\
  (forall stored, snd val = snd stored -> fst val <> fst stored ->
                  duplicateOf maxLengthDifference delimiters val stored = false) /\
  ((forall stored, stored ∈ dupes -> snd val = snd stored /\ fst val <> fst stored) ->
   likelyDuplicate maxLengthDifference delimiters val dupes = false).
Proof.
  assert (Hsame : forall stored, val.2 = stored.2 -> val.1 <> stored.1 ->
            duplicateOf maxLengthDifference delimiters val stored = false).
  { intros stored Hk Hne. unfold duplicateOf.
    destruct (decide (val.2 = stored.2)); [|contradiction].
    now apply bool_decide_eq_false. }
  split; [|split; [exact Hsame|]].
  - unfold likelyDuplicate. rewrite existsb_exists. split.
    + intros (stored & Hin & Hd). exists stored. split.
      * apply elem_of_elements, list_elem_of_In. exact Hin.
      * now apply duplicateOf_spec.
    + intros (stored & Hin & Hr). exists stored. split.
      * apply list_elem_of_In, elem_of_elements. exact Hin.
      * now apply duplicateOf_spec.
  - intros Hall. unfold likelyDuplicate.
    destruct (existsb _ (elements dupes)) eqn:He; [|reflexivity].
    apply existsb_exists in He as (stored & Hin & Hd).
    apply list_elem_of_In, elem_of_elements, Hall in Hin as [Hk Hne].
    rewrite (Hsame stored Hk Hne) in Hd. discriminate.
Qed.

End Duplicates.

(** The cases of TestLikelyDuplicate, with the constant 5 and the sample
    delimiters. *)
Lemma TestLikelyDuplicate_cases :
  let likely := engine.likelyDuplicate 5 engine.sampleDelimiters in
  likely (engine.postmanKey, engine.detectorA)
         {[ (engine.postmanKey, engine.detectorB) ]} = true /\
  likely ("short"%string, engine.detectorA)
         {[ ("muchlongerthanthevalstring"%string, engine.detectorB) ]} = false /\
  likely (engine.postmanKey, engine.detectorA)
         {[ (engine.postmanKeyBare, engine.detectorB) ]} = true /\
  likely ("anotherkey"%string, engine.detectorA)
         {[ ("completelydifferent"%string, engine.detectorB) ]} = false /\
  likely (""%string, engine.detectorA) {[ (""%string, engine.detectorB) ]} = true /\
  likely (engine.postmanKey, engine.detectorA)
         {[ (engine.postmanKeyBare, engine.detectorA) ]} = false.
Proof. vm_compute. repeat split. Qed.

(** A similar key stored under the same detector is no duplicate. *)
Lemma C4_likelyDuplicate_witness :
  engine.likelyDuplicate 5 engine.sampleDelimiters
    (engine.postmanKey, engine.detectorA)
    {[ (engine.postmanKeyBare, engine.detectorA) ]} = false.
Proof.
  destruct (C4_likelyDuplicate 5 engine.sampleDelimiters
              (engine.postmanKey, engine.detectorA)
              {[ (engine.postmanKeyBare, engine.detectorA) ]}) as (_ & _ & H).
  apply H. intros stored Hin. apply elem_of_singleton in Hin. rewrite Hin.
  split; [reflexivity | discriminate].
Defined.

(** ** engine: verification overrides *)

Section Overrides.

Import engine.

(** C7.  If the override map has an entry matching the detector, exactly or
    as the wildcard of its type, then the decision is the boolean of a
    matching entry (the exact one when present, else the wildcard), whatever
    the chunk's verify flag; if no entry matches, the chunk's verify flag
    decides. *)
Theorem C7_shouldVerifyChunk (sourceVerify : bool) (d : Detector)
  (overrides : gmap DetectorKey bool) :
  (forall k b, overrides !! k = Some b -> matchesDetector k d ->
     exists k' b', overrides !! k' = Some b' /\ matchesDetector k' d /\
                   shouldVerifyChunk sourceVerify d overrides = b') /\
  (forall b, overrides !! (Type_ d, Version d) = Some b ->
     shouldVerifyChunk sourceVerify d overrides = b) /\
  (forall b, overrides !! (Type_ d, Version d) = None ->
             overrides !! (Type_ d, 0) = Some b ->
     shouldVerifyChunk sourceVerify d overrides = b) /\
  ((forall k, matchesDetector k d -> overrides !! k = None) ->
     shouldVerifyChunk sourceVerify d overrides = sourceVerify).
Proof.
  unfold shouldVerifyChunk, matchesDetector.
  split; [|split; [|split]].
  - intros [t v] b Hk [Ht Hv]. simpl in Ht, Hv. subst t.
    destruct (overrides !! (Type_ d, Version d)) as [b1|] eqn:H1.
    + exists (Type_ d, Version d), b1. simpl. auto.
    + destruct (overrides !! (Type_ d, 0)) as [b0|] eqn:H0.
      * exists (Type_ d, 0), b0. simpl. auto.
      * destruct Hv as [-> | ->]; congruence.
  - intros b ->. reflexivity.
  - intros b -> ->. reflexivity.
  - intros Hnone.
    rewrite (Hnone (Type_ d, Version d)) by (simpl; auto).
    rewrite (Hnone (Type_ d, 0)) by (simpl; auto).
    reflexivity.
Qed.

(** The cases of TestEngine_ShouldVerifyChunk for the GitLab v2 scanner:
    an override under the exact version or under version 0 decides, one
    under another type or another version does not. *)
Lemma TestEngine_ShouldVerifyChunk_cases (sourceVerify detectorVerify : bool) (other : Z) :
  other <> DetectorType_Gitlab ->
  shouldVerifyChunk sourceVerify gitlabV2 {[ (DetectorType_Gitlab, 2) := detectorVerify ]}
    = detectorVerify /\
  shouldVerifyChunk sourceVerify gitlabV2 {[ (DetectorType_Gitlab, 0) := detectorVerify ]}
    = detectorVerify /\
  shouldVerifyChunk sourceVerify gitlabV2 {[ (other, 2) := detectorVerify ]}
    = sourceVerify /\
  shouldVerifyChunk sourceVerify gitlabV2 {[ (DetectorType_Gitlab, 1) := detectorVerify ]}
    = sourceVerify.
Proof.
  intros Hother. unfold shouldVerifyChunk, gitlabV2. cbn [Type_ Version].
  split; [now rewrite lookup_singleton_eq|].
  split.
  { rewrite lookup_singleton_ne by discriminate. now rewrite lookup_singleton_eq. }
  split.
  { rewrite !lookup_singleton_ne
      by (intros Heq; injection Heq; intros; first [discriminate | now apply Hother]).
    reflexivity. }
  rewrite !lookup_singleton_ne by discriminate. reflexivity.
Qed.

End Overrides.

(** The GitLab v2 scanner with a wildcard override set to false is not
    verified even on a chunk that asks for verification. *)
Lemma C7_shouldVerifyChunk_witness :
  engine.shouldVerifyChunk true engine.gitlabV2
    {[ (engine.DetectorType_Gitlab, 0) := false ]} = false.
Proof.
  destruct (C7_shouldVerifyChunk true engine.gitlabV2
              {[ (engine.DetectorType_Gitlab, 0) := false ]}) as (_ & _ & H & _).
  apply H.
  - apply lookup_singleton_ne. discriminate.
  - apply lookup_singleton_eq.
Defined.

(** ** bufferedfilewriter: sequences of writes in general *)

Section WriterLifecycle.

Import bufferedfilewriter.

Lemma WriteAll_app ds1 : forall w os ds2,
  WriteAll w os (ds1 ++ ds2) =
  match WriteAll w os ds1 with
  | Ok (w1, os1) => WriteAll w1 os1 ds2
  | Err e => Err e
  end.
Proof.
  induction ds1 as [|d ds1 IH]; intros w os ds2; simpl; [reflexivity|].
  destruct (Write w os d) as [[[n|e] w1] os1]; [apply IH | reflexivity].
Qed.

Lemma Write_size w os d :
  size (snd (fst (Write w os d))) = (size w + len d) mod 2 ^ 64.
Proof.
  assert (Hd : uint64 (size w + uint64 (len d)) = (size w + len d) mod 2 ^ 64).
  { unfold uint64. now rewrite Zplus_mod_idemp_r. }
  rewrite <- Hd. unfold Write.
  destruct (_ <=? threshold w); [reflexivity|].
  destruct (file w) as [f|].
  - destruct (fileWrite os f d); reflexivity.
  - destruct (CreateTemp os) as [[f os1]|e]; [|reflexivity].
    destruct (0 <? len (buf (set_file w f))).
    + destruct (fileWrite os1 f (buf (set_file w f))); [|reflexivity].
      destruct (fileWrite _ f d); reflexivity.
    + destruct (fileWrite os1 f d); reflexivity.
Qed.

(** X2.  The size field counts every byte of a successful sequence of writes,
    modulo [2^64], wherever the bytes went. *)
Theorem WriteAll_size ds : forall w os w' os',
  0 <= size w < 2 ^ 64 ->
  WriteAll w os ds = Ok (w', os') ->
  size w' = (size w + total ds) mod 2 ^ 64.
Proof.
  induction ds as [|d ds IH]; intros w os w' os' Hrange H; simpl in H.
  - injection H as <- <-. unfold total. simpl. rewrite len_nil, Z.add_0_r.
    symmetry. now apply Z.mod_small.
  - pose proof (Write_size w os d) as Hs.
    destruct (Write w os d) as [[[n|e] w1] os1]; [|discriminate].
    simpl in Hs. rewrite (IH w1 os1 w' os'); [| |exact H].
    + rewrite Hs, total_cons, Zplus_mod_idemp_l. f_equal. lia.
    + rewrite Hs. apply Z.mod_pos_bound. lia.
Qed.

Section Tracking.

Variable os0 : OS.
Variable nm : string.
Variable rest : list string.
Hypothesis supply : tmpnames os0 = nm :: rest.
Hypothesis free : files os0 !! nm = None.

(** One write keeps the writer on track. *)
Lemma Write_tracks written w os d :
  tracks os0 nm written w os ->
  exists w' os',
    Write w os d = (Ok (len d), w', os') /\
    tracks os0 nm (written ++ d) w' os'.
Proof.
  intros [(Hf & -> & Hb)|(c & Hf & Hn & Hfiles & Hperm)]; unfold Write.
  - destruct (_ <=? threshold w).
    + eexists _, _. split; [reflexivity|]. left. simpl. now rewrite Hb.
    + rewrite Hf. unfold CreateTemp. rewrite supply, free. simpl.
      unfold fileWrite. simpl. rewrite lookup_insert_eq. simpl.
      destruct (0 <? len (buf w)) eqn:Hpos.
      * rewrite lookup_insert_eq, !insert_insert_eq.
        eexists _, _. split; [reflexivity|]. right.
        exists (buf w ++ d). simpl. rewrite app_nil_r, Hb. auto.
      * rewrite insert_insert_eq.
        assert (buf w = []) as Hnil.
        { apply Z.ltb_ge in Hpos. destruct (buf w); [reflexivity|].
          unfold len in Hpos. simpl in Hpos. lia. }
        eexists _, _. split; [reflexivity|]. right.
        exists d. simpl. rewrite <- Hb, Hnil. simpl. rewrite app_nil_r. auto.
  - destruct (_ <=? threshold w).
    + eexists _, _. split; [reflexivity|]. right.
      exists c. simpl. rewrite app_assoc. auto using Permutation_app_tail.
    + rewrite Hf. unfold fileWrite. simpl. rewrite Hfiles, lookup_insert_eq.
      rewrite insert_insert_eq.
      eexists _, _. split; [reflexivity|]. right.
      exists (c ++ d). simpl. repeat split; auto.
      rewrite <- app_assoc.
      rewrite (Permutation_app_comm d (buf w)), app_assoc.
      now apply Permutation_app_tail.
Qed.

Lemma WriteAll_tracks ds : forall written w os,
  tracks os0 nm written w os ->
  exists w' os',
    WriteAll w os ds = Ok (w', os') /\
    tracks os0 nm (written ++ concat ds) w' os'.
Proof.
  induction ds as [|d ds IH]; intros written w os Ht; simpl.
  - exists w, os. rewrite app_nil_r. auto.
  - destruct (Write_tracks written w os d Ht) as (w1 & os1 & HW & Ht1).
    rewrite HW. destruct (IH _ _ _ Ht1) as (w' & os' & HA & Ht').
    exists w', os'. rewrite app_assoc. auto.
Qed.

(** X3.  With a free temporary name at hand, any sequence of writes followed by
    Close and ReadCloser succeeds, and the reader yields every written byte
    exactly once (a permutation of the written bytes, so of the same
    length), whatever the threshold. *)
Theorem roundtrip_permutation (opt : option Z) (ds : list (list byte)) :
  exists out,
    roundtrip (New opt) os0 ds = Ok out /\
    Permutation out (concat ds) /\
    length out = length (concat ds).
Proof.
  assert (Ht0 : tracks os0 nm [] (New opt) os0).
  { left. destruct opt; auto. }
  destruct (WriteAll_tracks ds [] _ _ Ht0) as (w & os & HW & Ht).
  simpl in Ht. unfold roundtrip. rewrite HW.
  destruct Ht as [(Hf & -> & Hb)|(c & Hf & Hn & Hfiles & Hperm)].
  - unfold Close, ReadCloser. rewrite Hf. simpl. rewrite Hf.
    exists (buf w). rewrite Hb. auto.
  - unfold Close. rewrite Hf. unfold fileWrite, fileClose. simpl.
    destruct (0 <? len (buf w)) eqn:Hpos.
    + rewrite Hfiles, lookup_insert_eq. simpl.
      unfold ReadCloser. simpl. rewrite Hn, lookup_insert_eq.
      exists (c ++ buf w). split; [reflexivity|].
      split; [exact Hperm | now apply Permutation_length].
    + unfold ReadCloser. simpl. rewrite Hn, Hfiles, lookup_insert_eq.
      assert (buf w = []) as Hnil.
      { apply Z.ltb_ge in Hpos. destruct (buf w); [reflexivity|].
        unfold len in Hpos. simpl in Hpos. lia. }
      rewrite Hnil, app_nil_r in Hperm.
      exists c. split; [reflexivity|].
      split; [exact Hperm | now apply Permutation_length].
Qed.

(** X4.  After the whole life of a writer (writes, Close, ReadCloser, reading,
    closing the reader) the files of the system are exactly those it
    started with: the temporary file, if one was created, is gone and no
    other file was touched. *)
Theorem lifecycle_leaves_no_file (opt : option Z) (ds : list (list byte)) :
  exists out os',
    lifecycle (New opt) os0 ds = Ok (out, os') /\
    files os' = files os0.
Proof.
  assert (Ht0 : tracks os0 nm [] (New opt) os0).
  { left. destruct opt; auto. }
  destruct (WriteAll_tracks ds [] _ _ Ht0) as (w & os & HW & Ht).
  unfold lifecycle. rewrite HW.
  destruct Ht as [(Hf & -> & Hb)|(c & Hf & Hn & Hfiles & Hperm)].
  - unfold Close, ReadCloser. rewrite Hf. simpl. rewrite Hf.
    eexists _, _. split; reflexivity.
  - unfold Close. rewrite Hf. unfold fileWrite, fileClose. simpl.
    destruct (0 <? len (buf w)) eqn:Hpos.
    + rewrite Hfiles, lookup_insert_eq. simpl.
      unfold ReadCloser. simpl. rewrite Hn, lookup_insert_eq.
      eexists _, _. split; [reflexivity|].
      unfold ReaderClose. simpl. rewrite insert_insert_eq.
      now apply delete_insert_id.
    + unfold ReadCloser. simpl. rewrite Hn, Hfiles, lookup_insert_eq.
      eexists _, _. split; [reflexivity|].
      unfold ReaderClose. simpl. rewrite Hfiles.
      now apply delete_insert_id.
Qed.

End Tracking.

End WriterLifecycle.

Section WriterInOrder.

Import bufferedfilewriter.

(** X5.  When the writes after the one that crossed the threshold fit the buffer
    together, the reader yields all written bytes in the order they were
    written: the file holds the first part, Close appends the buffered
    rest. *)
Theorem roundtrip_in_order (t : Z) (os : OS) (pre : list (list byte))
  (d : list byte) (post : list (list byte)) (f : File) (os1 : OS) :
  0 <= t < 2 ^ 64 ->
  total pre <= t -> t < total pre + len d -> total post <= t ->
  fits_int (concat pre) -> fits_int d ->
  CreateTemp os = Ok (f, os1) ->
  roundtrip (New (Some t)) os (pre ++ d :: post)
    = Ok (concat pre ++ d ++ concat post).
Proof.
  intros Ht Hpre Hd Hpost Hfp Hfd Hc.
  destruct (WriteAll_within t Ht pre (New (Some t)) os eq_refl)
    as (w1 & HW1 & Hb1 & Hf1 & _ & Hth1).
  { apply within_total. simpl. rewrite len_nil. lia. }
  simpl in Hb1, Hf1.
  destruct (Write_spills t Ht w1 os d f os1 Hth1 Hf1)
    as (w2 & HW2 & Hb2 & Hf2 & Hn2 & Hth2 & Hcl & Hfresh).
  { now rewrite Hb1. }
  { exact Hfd. }
  { rewrite Hb1. exact Hd. }
  { exact Hc. }
  destruct (WriteAll_within t Ht post w2
              (mkOS (<[fname f := buf w1 ++ d]> (files os)) (tmpnames os1)) Hth2)
    as (w3 & HW3 & Hb3 & Hf3 & Hn3 & _).
  { apply within_total. rewrite Hb2, len_nil. lia. }
  unfold roundtrip. rewrite WriteAll_app, HW1. simpl. rewrite HW2, HW3.
  unfold Close. rewrite Hf3, Hf2. unfold fileWrite, fileClose. rewrite Hcl.
  cbn [files tmpnames]. rewrite lookup_insert_eq.
  rewrite Hb3, Hb2, Hb1. cbn [app].
  destruct (0 <? len (concat post)) eqn:Hpos.
  - unfold ReadCloser. cbn [file filename files]. rewrite Hn3, Hn2.
    rewrite lookup_insert_eq. cbn [content]. now rewrite <- app_assoc.
  - unfold ReadCloser. cbn [file filename files]. rewrite Hn3, Hn2.
    rewrite lookup_insert_eq. cbn [content].
    assert (concat post = []) as ->.
    { apply Z.ltb_ge in Hpos. destruct (concat post); [reflexivity|].
      unfold len in Hpos. simpl in Hpos. lia. }
    now rewrite app_nil_r.
Qed.

End WriterInOrder.

(** Three writes of 3, 1 and 3 bytes leave the size field at 7. *)
Lemma WriteAll_size_witness :
  exists w' os',
    bufferedfilewriter.WriteAll (bufferedfilewriter.New (Some 2)) bufferedfilewriter.os0
      [bufferedfilewriter.bytes "abc"; bufferedfilewriter.bytes "d";
       bufferedfilewriter.bytes "efg"] = Ok (w', os') /\
    bufferedfilewriter.size w' = 7.
Proof.
  destruct (bufferedfilewriter.WriteAll (bufferedfilewriter.New (Some 2))
              bufferedfilewriter.os0
              [bufferedfilewriter.bytes "abc"; bufferedfilewriter.bytes "d";
               bufferedfilewriter.bytes "efg"]) as [[w' os']|e] eqn:H.
  - exists w', os'. split; [reflexivity|].
    assert (Hr : 0 <= bufferedfilewriter.size (bufferedfilewriter.New (Some 2)) < 2 ^ 64)
      by (cbn; lia).
    rewrite (WriteAll_size _ _ _ _ _ Hr H). vm_compute. reflexivity.
  - vm_compute in H. discriminate H.
Defined.

(** At threshold 2 the writes "abc", "d", "efg" read back as a permutation
    of the seven written bytes. *)
Lemma roundtrip_permutation_witness :
  exists out,
    bufferedfilewriter.roundtrip (bufferedfilewriter.New (Some 2)) bufferedfilewriter.os0
      [bufferedfilewriter.bytes "abc"; bufferedfilewriter.bytes "d";
       bufferedfilewriter.bytes "efg"] = Ok out /\
    Permutation out (concat [bufferedfilewriter.bytes "abc"; bufferedfilewriter.bytes "d";
                             bufferedfilewriter.bytes "efg"]) /\
    length out = length (concat [bufferedfilewriter.bytes "abc"; bufferedfilewriter.bytes "d";
                                 bufferedfilewriter.bytes "efg"]).
Proof.
  assert (Hfree : bufferedfilewriter.files bufferedfilewriter.os0 !! "trufflehog-1"%string = None)
    by (vm_compute; reflexivity).
  exact (roundtrip_permutation bufferedfilewriter.os0 "trufflehog-1" ["trufflehog-2"%string]
           eq_refl Hfree (Some 2) _).
Defined.

(** The same run leaves no file behind. *)
Lemma lifecycle_leaves_no_file_witness :
  exists out os',
    bufferedfilewriter.lifecycle (bufferedfilewriter.New (Some 2)) bufferedfilewriter.os0
      [bufferedfilewriter.bytes "abc"; bufferedfilewriter.bytes "d";
       bufferedfilewriter.bytes "efg"] = Ok (out, os') /\
    bufferedfilewriter.files os' = bufferedfilewriter.files bufferedfilewriter.os0.
Proof.
  assert (Hfree : bufferedfilewriter.files bufferedfilewriter.os0 !! "trufflehog-1"%string = None)
    by (vm_compute; reflexivity).
  exact (lifecycle_leaves_no_file bufferedfilewriter.os0 "trufflehog-1" ["trufflehog-2"%string]
           eq_refl Hfree (Some 2) _).
Defined.

(** At threshold 2 the writes "ab", "c", "d", "e" read back in order. *)
Lemma roundtrip_in_order_witness :
  bufferedfilewriter.roundtrip (bufferedfilewriter.New (Some 2)) bufferedfilewriter.os0
    ([bufferedfilewriter.bytes "ab"] ++ bufferedfilewriter.bytes "c"
       :: [bufferedfilewriter.bytes "d"; bufferedfilewriter.bytes "e"])
  = Ok (concat [bufferedfilewriter.bytes "ab"] ++ bufferedfilewriter.bytes "c"
          ++ concat [bufferedfilewriter.bytes "d"; bufferedfilewriter.bytes "e"]).
Proof.
  apply (roundtrip_in_order 2 bufferedfilewriter.os0 [bufferedfilewriter.bytes "ab"]
           (bufferedfilewriter.bytes "c")
           [bufferedfilewriter.bytes "d"; bufferedfilewriter.bytes "e"]
           (bufferedfilewriter.mkFile "trufflehog-1" false)
           (bufferedfilewriter.mkOS (<["trufflehog-1"%string := []]> ∅)
              ["trufflehog-2"%string])).
  - lia.
  - vm_compute. discriminate.
  - vm_compute. reflexivity.
  - vm_compute. discriminate.
  - vm_compute. reflexivity.
  - vm_compute. reflexivity.
  - reflexivity.
Defined.

(** ** twilio: what FromData returns, request by request *)

Section TwilioResults.

Import twilio.

Variable FindAllString : pattern -> string -> list string.
Variable NewRequestWithContext : string -> string -> result Request.
Variable Do : nat -> Request -> result Response.

Local Abbreviation body_ := (body NewRequestWithContext Do).

Lemma inner_without_verify keys sid : forall ks results n,
  (0 <? len keys) = true \/ ks = [] ->
  fold_left (body_ false keys sid) ks (results, n)
    = (results ++ List.map (candidate sid) ks, n).
Proof.
  induction ks as [|k ks IH]; intros results n Hk; simpl.
  - now rewrite app_nil_r.
  - destruct Hk as [Hk|Hk]; [|discriminate].
    rewrite Hk, IH by auto. now rewrite <- app_assoc.
Qed.

Lemma keys_nonempty_or_nil (keys : list string) : (0 <? len keys) = true \/ keys = [].
Proof. destruct keys; [now right | left]. reflexivity. Qed.

(** X7.  Without verification FromData sends no request: its results do not
    depend on the HTTP client or on request construction.  It returns
    nothing unless the identifier pattern matches, and otherwise one
    unverified candidate per pair of a sid match and a key match, sids in
    the outer order. *)
Theorem FromData_without_verify (data : list byte) :
  fst (FromData FindAllString NewRequestWithContext Do false data) =
  if len (FindAllString identifierPat (string_of_list_byte data)) =? 0 then []
  else flat_map (fun sid => List.map (candidate sid)
                              (FindAllString keyPat (string_of_list_byte data)))
                (FindAllString sidPat (string_of_list_byte data)).
Proof.
  unfold FromData.
  destruct (len (FindAllString identifierPat (string_of_list_byte data)) =? 0);
    [reflexivity|].
  cbn [fst].
  generalize (FindAllString keyPat (string_of_list_byte data)) as keys.
  generalize (FindAllString sidPat (string_of_list_byte data)) as sids.
  intros sids keys.
  assert (H : forall ss results n,
            fold_left (fun st sid => fold_left (body_ false keys sid) keys st) ss (results, n)
            = (results ++ flat_map (fun sid => List.map (candidate sid) keys) ss, n)).
  { induction ss as [|s ss IH]; intros results n; simpl.
    - now rewrite app_nil_r.
    - rewrite inner_without_verify by apply keys_nonempty_or_nil.
      rewrite IH. now rewrite <- app_assoc. }
  now rewrite H.
Qed.

(** X8.  When the request cannot be built, FromData with verification drops
    every candidate and returns nothing, without an error. *)
Theorem FromData_request_error (data : list byte) (e : string) :
  NewRequestWithContext "GET" "https://verify.twilio.com/v2/Services" = Err e ->
  FromData FindAllString NewRequestWithContext Do true data = ([], None).
Proof.
  intros Hreq. unfold FromData.
  destruct (len (FindAllString identifierPat (string_of_list_byte data)) =? 0);
    [reflexivity|].
  f_equal.
  generalize (FindAllString keyPat (string_of_list_byte data)) as keys.
  generalize (FindAllString sidPat (string_of_list_byte data)) as sids.
  intros sids keys.
  assert (Hin : forall ks sid st, fold_left (body_ true keys sid) ks st = st).
  { induction ks as [|k ks IH]; intros sid [results n]; simpl; [reflexivity|].
    rewrite Hreq. apply IH. }
  assert (Hout : forall ss st,
            fold_left (fun st sid => fold_left (body_ true keys sid) keys st) ss st = st).
  { induction ss as [|s ss IH]; intros st; simpl; [reflexivity|].
    rewrite Hin. apply IH. }
  now rewrite Hout.
Qed.

(** The pairs FromData walks through, sids outermost. *)
Local Abbreviation pairs_ sids keys :=
  (flat_map (fun sid : string => List.map (pair sid) keys) sids).

Local Abbreviation judged_at_ req n :=
  (fun (i : nat) (p : string * string) =>
     judge (candidate (fst p) (snd p)) (fst p) (snd p)
           (Do (n + i) (prepare req (fst p) (snd p)))).

Lemma inner_with_verify req keys sid :
  NewRequestWithContext "GET" "https://verify.twilio.com/v2/Services" = Ok req ->
  forall ks results n,
    (0 <? len keys) = true \/ ks = [] ->
    fold_left (body_ true keys sid) ks (results, n)
      = (results ++ imap (judged_at_ req n) (List.map (pair sid) ks),
         (n + length ks)%nat).
Proof.
  intros Hreq. induction ks as [|k ks IH]; intros results n Hk; simpl.
  - rewrite app_nil_r. f_equal. lia.
  - destruct Hk as [Hk|Hk]; [|discriminate].
    rewrite Hreq, Hk, IH by auto. rewrite <- app_assoc. simpl.
    rewrite Nat.add_0_r. f_equal; [|lia].
    f_equal. f_equal. apply imap_ext. intros i p _.
    unfold compose. cbn beta. now rewrite Nat.add_succ_r.
Qed.

(** X9.  With verification and a request that can be built, FromData sends one
    request per pair of a sid match and a key match, in order, and the
    [i]-th result is the candidate of the [i]-th pair judged by the answer
    to the [i]-th request. *)
Theorem FromData_one_request_per_pair (data : list byte) (req : Request) :
  NewRequestWithContext "GET" "https://verify.twilio.com/v2/Services" = Ok req ->
  len (FindAllString identifierPat (string_of_list_byte data)) <> 0 ->
  fst (FromData FindAllString NewRequestWithContext Do true data) =
  imap (judged_at_ req 0%nat)
       (pairs_ (FindAllString sidPat (string_of_list_byte data))
               (FindAllString keyPat (string_of_list_byte data))).
Proof.
  intros Hreq Hid. unfold FromData.
  destruct (Z.eqb_spec (len (FindAllString identifierPat (string_of_list_byte data))) 0)
    as [Heq|Hne]; [contradiction|].
  cbn [fst].
  generalize (FindAllString keyPat (string_of_list_byte data)) as keys.
  generalize (FindAllString sidPat (string_of_list_byte data)) as sids.
  intros sids keys.
  assert (H : forall ss results n,
            fold_left (fun st sid => fold_left (body_ true keys sid) keys st) ss (results, n)
            = (results ++ imap (judged_at_ req n) (pairs_ ss keys),
               (n + length (pairs_ ss keys))%nat)).
  { induction ss as [|s ss IH]; intros results n; simpl.
    - rewrite app_nil_r. f_equal. lia.
    - rewrite (inner_with_verify req keys s Hreq) by apply keys_nonempty_or_nil.
      rewrite IH, <- app_assoc, imap_app, !length_app, !length_map.
      f_equal; [|lia]. do 2 f_equal.
      apply imap_ext. intros i p _. simpl.
      now rewrite Nat.add_assoc. }
  now rewrite H.
Qed.

End TwilioResults.

(** A failing request construction: no result at all. *)
Lemma FromData_request_error_witness :
  twilio.FromData twilio.sampleMatches (fun _ _ => Err "net/http: nil Context"%string)
    (twilio.answering 200) true [] = ([], None).
Proof.
  exact (FromData_request_error twilio.sampleMatches
           (fun _ _ => Err "net/http: nil Context"%string)
           (twilio.answering 200) [] "net/http: nil Context" eq_refl).
Defined.

(** One sid and one key: one request, one result. *)
Lemma FromData_one_request_per_pair_witness :
  length (fst (twilio.FromData twilio.sampleMatches twilio.sampleRequest
                 (twilio.answering 200) true [])) = 1%nat.
Proof.
  rewrite (FromData_one_request_per_pair twilio.sampleMatches twilio.sampleRequest
             (twilio.answering 200) []
             (twilio.mkRequest "GET" "https://verify.twilio.com/v2/Services" [] None)
             eq_refl).
  - reflexivity.
  - discriminate.
Defined.

(** ** main: flag normalisation *)

Section FlagValues.

Import main.

Variable TrimSpace : string -> string.

Lemma Split_nonempty (s : string) : Split s ","%char <> [].
Proof.
  destruct s as [|c s]; simpl; [discriminate|].
  destruct (Ascii.eqb c ","%char); [discriminate|].
  destruct (Split s ","%char); discriminate.
Qed.

Lemma Split_join (a b : string) :
  Split (a ++ String ","%char b) ","%char = Split a ","%char ++ Split b ","%char.
Proof.
  induction a as [|c a IH]; simpl.
  - reflexivity.
  - destruct (Ascii.eqb c ","%char); [now rewrite IH|].
    rewrite IH. pose proof (Split_nonempty a) as Hne.
    destruct (Split a ","%char); [contradiction | reflexivity].
Qed.

(** The items one flag value contributes. *)
Local Abbreviation items_of_ :=
  (fun items : string =>
     List.filter (fun item => negb (String.eqb item ""))
                 (List.map TrimSpace (Split items ","%char))).

Lemma commaSeparatedToSlice_flat_map (s : list string) :
  commaSeparatedToSlice TrimSpace s = flat_map items_of_ s.
Proof.
  unfold commaSeparatedToSlice.
  assert (Hin : forall l result,
            fold_left (fun result item =>
                         let item := TrimSpace item in
                         if String.eqb item "" then result else result ++ [item])
                      l result
            = result ++ List.filter (fun item => negb (String.eqb item ""))
                                    (List.map TrimSpace l)).
  { induction l as [|x l IH]; intros result; simpl.
    - now rewrite app_nil_r.
    - rewrite IH. destruct (String.eqb (TrimSpace x) ""); simpl; [reflexivity|].
      now rewrite <- app_assoc. }
  assert (Hout : forall l result,
            fold_left (fun result items =>
                         fold_left (fun result item =>
                                      let item := TrimSpace item in
                                      if String.eqb item "" then result else result ++ [item])
                                   (Split items ","%char) result)
                      l result
            = result ++ flat_map items_of_ l).
  { induction l as [|x l IH]; intros result; simpl.
    - now rewrite app_nil_r.
    - rewrite Hin, IH. now rewrite <- app_assoc. }
  apply Hout.
Qed.

(** X10.  [commaSeparatedToSlice] never returns an empty item, and it reads a
    value with a comma exactly as it reads the two values given as separate
    flags: "a,b" among the flag values is the same as "a" followed by
    "b". *)
Theorem commaSeparatedToSlice_dual (xs ys : list string) (a b : string) :
  (forall s, Forall (fun item => item <> ""%string) (commaSeparatedToSlice TrimSpace s)) /\
  commaSeparatedToSlice TrimSpace (xs ++ [(a ++ String ","%char b)%string] ++ ys)
    = commaSeparatedToSlice TrimSpace (xs ++ [a; b] ++ ys).
Proof.
  split.
  - intros s. rewrite commaSeparatedToSlice_flat_map. apply Forall_forall.
    intros item Hin. apply list_elem_of_In, in_flat_map in Hin as (items & _ & Hin).
    apply filter_In in Hin as [_ Hne].
    intros ->. discriminate.
  - rewrite !commaSeparatedToSlice_flat_map, !flat_map_app. f_equal. f_equal.
    simpl. rewrite Split_join, map_app, List.filter_app. now rewrite !app_nil_r.
Qed.

Variable ToLower : string -> string.

(** X11.  With [--only-verified] the value of [--results] is not looked at: the
    filter is the single category "verified", even when [--results] holds
    a value that would be rejected. *)
Theorem only_verified_overrides_results (f : Flags) :
  onlyVerified f = true ->
  ToLower "verified" = "verified"%string ->
  parseResults ToLower (resultsFlag f) = Ok (Some {[ "verified"%string ]}).
Proof.
  intros Hov Hlow. unfold resultsFlag, parseResults. rewrite Hov.
  cbn [String.eqb Ascii.eqb Bool.eqb]. rewrite Hlow.
  cbn. first [reflexivity | do 2 f_equal; apply (right_id_L ∅ (∪))].
Qed.

End FlagValues.

(** [--only-verified] together with an invalid [--results] value still
    gives the filter "verified". *)
Lemma only_verified_overrides_results_witness :
  main.parseResults main.asciiToLower
    (main.resultsFlag
       (main.mkFlags true false false 8 false true "bogus" false false false false ""
          false false false "all" "" "" false))
  = Ok (Some {[ "verified"%string ]}).
Proof.
  apply (only_verified_overrides_results main.asciiToLower); reflexivity.
Defined.

(** ** decoders: chunks too short to decode *)

Section ShortChunks.

Import decoders.

Lemma scanRuns_short data threshold : forall rest i count start,
  0 <= count -> count + len rest <= threshold ->
  exists count' start',
    scanRuns data rest i threshold count start [] = (count', start', []) /\
    count' <= threshold.
Proof.
  induction rest as [|c rest IH]; intros i count start Hc Hle; simpl.
  - exists count, start. rewrite len_nil in Hle. split; [reflexivity | lia].
  - assert (Hlen : len (c :: rest) = 1 + len rest) by (unfold len; simpl length; lia).
    rewrite Hlen in Hle. pose proof (len_nonneg rest).
    destruct (isB64 c).
    + apply IH; lia.
    + destruct (Z.ltb_spec threshold count); [lia|].
      apply IH; lia.
Qed.

(** X12.  A chunk of at most 20 bytes, the empty chunk included, has no
    candidate substring: [Base64.FromChunk] returns nil and leaves the heap
    as it is. *)
Theorem FromChunk_short (h : Heap) (p : loc) (c : Chunk) (data : list byte) :
  chunks h !! p = Some c ->
  arrays h !! Data c = Some data ->
  len data <= 20 ->
  getSubstringsOfCharacterSet data 20 = [] /\
  FromChunk h p = Some (h, None).
Proof.
  intros Hc Hd Hlen.
  assert (Hsub : getSubstringsOfCharacterSet data 20 = []).
  { unfold getSubstringsOfCharacterSet.
    destruct (len data =? 0); [reflexivity|].
    destruct (scanRuns_short data 20 data 0 0 0) as (count & start & Hs & Hle); [lia|lia|].
    rewrite Hs. destruct (Z.ltb_spec 20 count); [lia | reflexivity]. }
  split; [exact Hsub|].
  unfold FromChunk. rewrite Hc, Hd. unfold decoded. rewrite Hsub. reflexivity.
Qed.

End ShortChunks.

(** The 20-byte Base64 text "aGVsbG8gd29ybGQgaGVs" is left alone. *)
Lemma FromChunk_short_witness :
  decoders.FromChunk
    (decoders.mkHeap (<[1%positive := decoders.mkChunk "file" 1 15 1%positive true]> ∅)
                     (<[1%positive := list_byte_of_string "aGVsbG8gd29ybGQgaGVs"]> ∅))
    1%positive
  = Some (decoders.mkHeap (<[1%positive := decoders.mkChunk "file" 1 15 1%positive true]> ∅)
                          (<[1%positive := list_byte_of_string "aGVsbG8gd29ybGQgaGVs"]> ∅),
          None).
Proof.
  assert (Hc : decoders.chunks
                 (decoders.mkHeap (<[1%positive := decoders.mkChunk "file" 1 15 1%positive true]> ∅)
                    (<[1%positive := list_byte_of_string "aGVsbG8gd29ybGQgaGVs"]> ∅))
               !! 1%positive = Some (decoders.mkChunk "file" 1 15 1%positive true))
    by (vm_compute; reflexivity).
  assert (Hd : decoders.arrays
                 (decoders.mkHeap (<[1%positive := decoders.mkChunk "file" 1 15 1%positive true]> ∅)
                    (<[1%positive := list_byte_of_string "aGVsbG8gd29ybGQgaGVs"]> ∅))
               !! 1%positive = Some (list_byte_of_string "aGVsbG8gd29ybGQgaGVs"))
    by (vm_compute; reflexivity).
  assert (Hl : len (list_byte_of_string "aGVsbG8gd29ybGQgaGVs") <= 20)
    by (vm_compute; discriminate).
  exact (proj2 (FromChunk_short _ _ _ _ Hc Hd Hl)).
Defined.

(** ** gitparse: the reading loop *)

Section GitLog.

Import gitparse.

Variable Time : Type.
Variable zeroTime : Time.
Variable timeParse : string -> string -> Time.
Variable TrimSpace : string -> string.

Local Abbreviation step_ := (step Time zeroTime timeParse TrimSpace).
Local Abbreviation loop_ := (loop Time zeroTime timeParse TrimSpace).
Local Abbreviation parse_ := (parse Time zeroTime timeParse TrimSpace).

Lemma Equal_spec (a : list byte) : forall b, Equal a b = true <-> a = b.
Proof.
  induction a as [|x a IH]; intros [|y b]; simpl; split; try discriminate; auto.
  - rewrite andb_true_iff, IH. intros [Hx ->].
    apply Byte.byte_dec_bl in Hx. now subst.
  - intros H. injection H as -> ->. rewrite andb_true_iff, IH.
    split; [now apply Byte.byte_dec_lb | reflexivity].
Qed.

Lemma sliceFrom_in_range (line : list byte) (i : Z) :
  0 <= i <= len line -> sliceFrom line i = Some (skipn (Z.to_nat i) line).
Proof.
  intros [H0 H1]. unfold sliceFrom.
  destruct (Z.leb_spec 0 i); [|lia]. destruct (Z.leb_spec i (len line)); [|lia].
  reflexivity.
Qed.

Local Abbreviation hashes_so_far := (gitparse.hashes_so_far Time).

Lemma step_keeps_going st line hs :
  hashes_so_far st = Some hs -> safeLine line ->
  exists st',
    step_ st line = Some st' /\
    hashes_so_far st' =
      Some (if isCommitLine line then hs ++ [hashOf line] else hs).
Proof.
  unfold hashes_so_far. intros Hst (HplusF & HminusF & Hbin).
  destruct (currentCommit Time st) as [c|] eqn:Hc; [|discriminate].
  destruct (currentDiff Time st) as [d|] eqn:Hd; [|discriminate].
  injection Hst as <-. unfold step. rewrite Hc, Hd.
  destruct (isCommitLine line) eqn:H1.
  { eexists. split; [reflexivity|]. simpl.
    now rewrite map_app. }
  destruct (isAuthorLine line) eqn:H2.
  { apply andb_true_iff in H2 as [Hl _]. apply Z.ltb_lt in Hl.
    rewrite sliceFrom_in_range by lia. eexists. split; reflexivity. }
  destruct (isDateLine line) eqn:H3.
  { apply andb_true_iff in H3 as [Hl _]. apply Z.ltb_lt in Hl.
    rewrite sliceFrom_in_range by lia. eexists. split; reflexivity. }
  destruct (isDiffLine line) eqn:H4.
  { eexists. split; reflexivity. }
  destruct (isModeLine line) eqn:H5.
  { exists st. rewrite Hc, Hd. split; reflexivity. }
  destruct (isIndexLine line) eqn:H6.
  { exists st. rewrite Hc, Hd. split; reflexivity. }
  destruct (isPlusFileLine line) eqn:H7.
  { rewrite sliceFrom_in_range by (specialize (HplusF eq_refl); lia).
    eexists. split; reflexivity. }
  destruct (isMinusFileLine line) eqn:H8.
  { rewrite sliceFrom_in_range by (specialize (HminusF eq_refl); lia).
    eexists. split; reflexivity. }
  destruct (isPlusDiffLine line) eqn:H9.
  { apply andb_true_iff in H9 as [Hl _]. apply Z.leb_le in Hl.
    rewrite sliceFrom_in_range by lia. eexists. split; reflexivity. }
  destruct (isMinusDiffLine line) eqn:H10.
  { exists st. rewrite Hc, Hd. split; reflexivity. }
  destruct (isMessageLine line) eqn:H11.
  { apply andb_true_iff in H11 as [Hl _]. apply Z.ltb_lt in Hl.
    rewrite sliceFrom_in_range by lia. eexists. split; reflexivity. }
  destruct (isBinaryLine line) eqn:H12.
  { destruct (pathFromBinaryLine line) as [path|] eqn:Hp.
    - eexists. split; reflexivity.
    - exfalso. now apply Hbin. }
  exists st. rewrite Hc, Hd. split; reflexivity.
Qed.

Lemma loop_keeps_going : forall lines st hs,
  hashes_so_far st = Some hs -> Forall safeLine lines ->
  exists st',
    loop_ st lines = Some st' /\
    hashes_so_far st' =
      Some (hs ++ List.map hashOf (List.filter isCommitLine lines)).
Proof.
  induction lines as [|line lines IH]; intros st hs Hst Hsafe; simpl.
  - exists st. rewrite app_nil_r. auto.
  - apply Forall_cons in Hsafe as [Hl Hsafe].
    destruct (step_keeps_going st line hs Hst Hl) as (st1 & Hs & Hh).
    rewrite Hs. destruct (IH st1 _ Hh Hsafe) as (st' & Hloop & Hh').
    exists st'. split; [exact Hloop|]. rewrite Hh'.
    destruct (isCommitLine line); simpl; [now rewrite <- app_assoc | reflexivity].
Qed.

(** X15.  On input that starts with a commit line and whose file and binary
    lines are long enough for the slice expressions, the loop never panics
    and sends exactly one commit per commit line, in order, each with the
    hash taken from its line. *)
Theorem parse_one_commit_per_commit_line (first : list byte) (lines : list (list byte)) :
  isCommitLine first = true ->
  Forall safeLine (first :: lines) ->
  exists commits,
    parse_ (first :: lines) = Some commits /\
    List.map (Hash Time) commits
      = List.map hashOf (List.filter isCommitLine (first :: lines)).
Proof.
  intros Hfirst Hsafe. apply Forall_cons in Hsafe as [_ Hsafe].
  unfold parse. simpl. unfold step at 1. rewrite Hfirst. simpl.
  destruct (loop_keeps_going lines
              (mkState Time (Some (mkCommit Time (hashOf first) "" zeroTime [] []))
                       (Some Diff0) [])
              [hashOf first] eq_refl Hsafe) as (st & Hloop & Hh).
  rewrite Hloop. unfold hashes_so_far in Hh. unfold finish.
  destruct (currentCommit Time st) as [c|]; [|discriminate].
  destruct (currentDiff Time st) as [d|]; [|discriminate].
  injection Hh as Hh.
  destruct (0 <? len (Content d)); eexists; (split; [reflexivity|]);
    rewrite map_app; simpl; exact Hh.
Qed.

(** X16.  A line of four or five bytes that starts with "+++" or "---", such as
    the added line "++" or the removed line "--", makes the loop panic:
    it is taken for a file line and sliced from index 6. *)
Theorem step_panics_on_short_file_line (st : State Time) (line : list byte) :
  3 < len line < 6 ->
  firstn 3 line = lit "+++" \/ firstn 3 line = lit "---" ->
  step_ st line = None.
Proof.
  intros [Hlo Hhi] Hpre. unfold step.
  assert (H1 : isCommitLine line = false).
  { unfold isCommitLine. destruct (Z.ltb_spec 7 (len line)); [lia | reflexivity]. }
  assert (H2 : isAuthorLine line = false).
  { unfold isAuthorLine. destruct (Z.ltb_spec 8 (len line)); [lia | reflexivity]. }
  assert (H3 : isDateLine line = false).
  { unfold isDateLine. destruct (Z.ltb_spec 7 (len line)); [lia | reflexivity]. }
  assert (H4 : isDiffLine line = false).
  { unfold isDiffLine. destruct (Z.ltb_spec 5 (len line)); [lia | reflexivity]. }
  assert (H5 : isModeLine line = false).
  { unfold isModeLine. destruct (Z.ltb_spec 13 (len line)); [lia | reflexivity]. }
  assert (H6 : isIndexLine line = false).
  { unfold isIndexLine. destruct (Z.ltb_spec 6 (len line)); [lia | reflexivity]. }
  assert (Hs : sliceFrom line 6 = None).
  { unfold sliceFrom. destruct (Z.leb_spec 6 (len line)); [lia|].
    now rewrite andb_false_r. }
  rewrite H1, H2, H3, H4, H5, H6.
  destruct Hpre as [Hp|Hp].
  - assert (H7 : isPlusFileLine line = true).
    { unfold isPlusFileLine. rewrite Hp.
      destruct (Z.ltb_spec 3 (len line)); [reflexivity | lia]. }
    rewrite H7, Hs. reflexivity.
  - assert (H7 : isPlusFileLine line = false).
    { unfold isPlusFileLine. rewrite Hp. apply andb_false_r. }
    assert (H8 : isMinusFileLine line = true).
    { unfold isMinusFileLine. rewrite Hp.
      destruct (Z.ltb_spec 3 (len line)); [reflexivity | lia]. }
    rewrite H7, H8, Hs. reflexivity.
Qed.

End GitLog.

(** X17.  Lines read from [git log] keep their newline, so for a binary line that
    splits in two around " and " the path returned is the part between
    "b/" and "differ": the file path followed by a space. *)
Theorem pathFromBinaryLine_keeps_space (line front path : list byte) :
  gitparse.Split line (gitparse.lit " and ")
    = [front; gitparse.lit "b/" ++ path ++ gitparse.lit (" differ" ++ String "010" "")] ->
  gitparse.pathFromBinaryLine line
    = Some (string_of_list_byte (path ++ gitparse.lit " ")).
Proof.
  intros Hsplit. unfold gitparse.pathFromBinaryLine. rewrite Hsplit.
  unfold gitparse.slice.
  assert (Hlen : len (gitparse.lit "b/" ++ path
                      ++ gitparse.lit (" differ" ++ String "010" ""))
                 = len path + 10).
  { rewrite !len_app. unfold len at 1 3. simpl length. lia. }
  rewrite Hlen. pose proof (len_nonneg path) as Hp.
  destruct (Z.leb_spec 2 (len path + 10 - 7)); [|lia].
  destruct (Z.leb_spec (len path + 10 - 7) (len path + 10)); [|lia].
  cbn [Z.leb andb]. do 2 f_equal.
  change (Z.to_nat 2) with 2%nat.
  replace (Z.to_nat (len path + 10 - 7 - 2)) with (length path + 1)%nat
    by (unfold len; lia).
  change (drop 2 (gitparse.lit "b/" ++ path ++ gitparse.lit (" differ" ++ String "010" "")))
    with (path ++ gitparse.lit (" differ" ++ String "010" "")).
  rewrite firstn_app, firstn_all2 by lia.
  replace (length path + 1 - length path)%nat with 1%nat by lia.
  reflexivity.
Qed.

(** One commit line followed by its header lines: one commit with its
    hash. *)
Lemma parse_one_commit_per_commit_line_witness :
  exists commits,
    gitparse.parse nat 0%nat (fun _ _ => 1%nat) (fun v => v)
      (gitparse.lit ("commit 7a95bbf0199e280a0e42dbb1d1a3f56cdd0f6e05" ++ String "010" "")
       :: [gitparse.lit ("Author: Bill Rich" ++ String "010" "");
           gitparse.lit ("    first commit" ++ String "010" "")])
    = Some commits /\
    List.map (gitparse.Hash nat) commits
      = ["7a95bbf0199e280a0e42dbb1d1a3f56cdd0f6e05"%string].
Proof.
  apply (parse_one_commit_per_commit_line nat 0%nat (fun _ _ => 1%nat) (fun v => v)).
  - reflexivity.
  - repeat constructor; intros H; vm_compute in H; discriminate H.
Defined.

(** The added line "++" arrives as "+++" and a newline. *)
Lemma step_panics_on_short_file_line_witness :
  gitparse.step nat 0%nat (fun _ _ => 1%nat) (fun v => v)
    (gitparse.mkState nat (Some (gitparse.Commit0 nat 0%nat)) (Some gitparse.Diff0) [])
    (gitparse.lit ("+++" ++ String "010" "")) = None.
Proof.
  apply step_panics_on_short_file_line.
  - vm_compute. split; reflexivity.
  - left. reflexivity.
Defined.

(** The line for plugin.sig gives "plugin.sig" followed by a space. *)
Lemma pathFromBinaryLine_keeps_space_witness :
  gitparse.pathFromBinaryLine
    (gitparse.lit ("Binary files /dev/null and b/plugin.sig differ" ++ String "010" ""))
  = Some "plugin.sig "%string.
Proof.
  apply (pathFromBinaryLine_keeps_space
           (gitparse.lit ("Binary files /dev/null and b/plugin.sig differ" ++ String "010" ""))
           (gitparse.lit "Binary files /dev/null")
           (gitparse.lit "plugin.sig")).
  vm_compute. reflexivity.
Defined.

(** ** common: string slices used as sets *)

Section StringSlices.

Import common.

Lemma contains_spec item slice : contains item slice = true <-> In item slice.
Proof.
  induction slice as [|i slice IH]; simpl; [split; [discriminate | tauto]|].
  destruct (String.eqb_spec i item) as [->|Hne]; [tauto|].
  rewrite IH. split; [auto | intros [H|H]; [contradiction | exact H]].
Qed.

(** X18.  [AddStringSliceItem] makes the item a member and adds nothing else; it
    keeps a slice without duplicates free of duplicates, and adding an item
    a second time changes nothing. *)
Theorem AddStringSliceItem_set (item : string) (slice : list string) :
  (forall x, In x (AddStringSliceItem item slice) <-> x = item \/ In x slice) /\
  (NoDup slice -> NoDup (AddStringSliceItem item slice)) /\
  AddStringSliceItem item (AddStringSliceItem item slice)
    = AddStringSliceItem item slice.
Proof.
  unfold AddStringSliceItem.
  destruct (contains item slice) eqn:Hc.
  - apply contains_spec in Hc as Hin. rewrite Hc.
    split; [|split; [auto | reflexivity]].
    intros x. split; [auto | intros [->|H]; assumption].
  - assert (Hnin : ~ In item slice).
    { intros H. apply contains_spec in H. rewrite H in Hc. discriminate. }
    assert (Hc' : contains item (slice ++ [item]) = true).
    { apply contains_spec, in_or_app. right. now left. }
    rewrite Hc'. split; [|split; [|reflexivity]].
    + intros x. rewrite in_app_iff. simpl. split.
      * intros [H|[H|[]]]; auto.
      * intros [->|H]; auto.
    + intros Hnd. apply NoDup_app. split; [exact Hnd|]. split.
      * intros x Hx Hx'. apply list_elem_of_singleton in Hx'. subst.
        apply Hnin. now apply list_elem_of_In.
      * apply NoDup_singleton.
Qed.

(** Turns over elements other than the item leave the state alone. *)
Lemma removeLoop_skip item arr n : forall m i turns,
  (forall j x, (i <= j < i + m)%nat -> arr !! j = Some x -> x <> item) ->
  (i + m <= length arr)%nat ->
  removeLoop item (m + turns) i arr n = removeLoop item turns (i + m) arr n.
Proof.
  induction m as [|m IH]; intros i turns Hne Hlen; simpl.
  - now rewrite Nat.add_0_r.
  - destruct (arr !! i) as [x|] eqn:Hx.
    + destruct (String.eqb_spec item x) as [->|Hd].
      * exfalso. apply (Hne i x); [lia | exact Hx | reflexivity].
      * rewrite IH; [f_equal; lia | | lia].
        intros j y Hj Hy. apply (Hne j y); [lia | exact Hy].
    + apply lookup_ge_None in Hx. lia.
Qed.

(** An item that is not in the slice: nothing happens. *)
Lemma RemoveStringSliceItem_absent item slice :
  ~ In item slice -> RemoveStringSliceItem item slice = Some slice.
Proof.
  intros Hnin. unfold RemoveStringSliceItem.
  replace (length slice) with (length slice + 0)%nat at 1 by lia.
  rewrite removeLoop_skip.
  - simpl. now rewrite firstn_all.
  - intros j x _ Hx <-. apply Hnin, list_elem_of_In.
    now apply list_elem_of_lookup_2 in Hx.
  - lia.
Qed.

(** X19.  On a slice without duplicates [RemoveStringSliceItem] removes the item
    by moving the last element into its place: the result is free of the
    item and holds the other elements, possibly in another order.  An item
    that does not occur leaves the slice as it is. *)
Theorem RemoveStringSliceItem_nodup (item : string) (l1 l2 : list string) :
  NoDup (l1 ++ item :: l2) ->
  RemoveStringSliceItem item (l1 ++ item :: l2)
    = Some (l1 ++ match l2 with
                  | [] => []
                  | _ :: _ => List.last l2 item :: removelast l2
                  end) /\
  (forall res, RemoveStringSliceItem item (l1 ++ item :: l2) = Some res ->
     ~ In item res /\ Permutation res (l1 ++ l2)) /\
  (forall other, ~ In other (l1 ++ item :: l2) ->
     RemoveStringSliceItem other (l1 ++ item :: l2) = Some (l1 ++ item :: l2)).
Proof.
  intros Hnd.
  assert (Hn1 : ~ In item l1).
  { intros H. apply NoDup_app in Hnd as (_ & Hd & _).
    apply (Hd item); [now apply list_elem_of_In | left]. }
  assert (Hn2 : ~ In item l2).
  { intros H. apply NoDup_app in Hnd as (_ & _ & Hd).
    apply NoDup_cons in Hd as [Hd _]. apply Hd. now apply list_elem_of_In. }
  assert (Hres : RemoveStringSliceItem item (l1 ++ item :: l2)
                 = Some (l1 ++ match l2 with
                               | [] => []
                               | _ :: _ => List.last l2 item :: removelast l2
                               end)).
  { unfold RemoveStringSliceItem.
    rewrite length_app. cbn [length].
    replace (length l1 + S (length l2))%nat with (length l1 + S (length l2 + 0))%nat at 1 by lia.
    rewrite removeLoop_skip.
    2:{ intros j x Hj Hx <-. apply Hn1, list_elem_of_In.
        rewrite lookup_app_l in Hx by lia. now apply list_elem_of_lookup_2 in Hx. }
    2:{ rewrite length_app. lia. }
    cbn [removeLoop Nat.add].
    rewrite list_lookup_middle by reflexivity. rewrite String.eqb_refl.
    destruct (Nat.ltb_spec (length l1) (length l1 + S (length l2))) as [_|]; [|lia].
    destruct l2 as [|y l2].
    - (* the item is the last element *)
      cbn [length Nat.add].
      replace (length l1 + 1 - 1)%nat with (length l1) by lia.
      rewrite list_lookup_middle by reflexivity.
      cbn [removeLoop]. f_equal.
      rewrite list_insert_id by (now apply list_lookup_middle).
      rewrite firstn_app, firstn_all, Nat.sub_diag. reflexivity.
    - (* some element follows: the last one takes the item's place *)
      pose proof (@exists_last _ (y :: l2) ltac:(discriminate)) as (front & z & Hl2).
      rewrite Hl2 in *. clear Hl2.
      rewrite last_last, removelast_last.
      assert (Hlast : (l1 ++ item :: front ++ [z]) !! (length l1 + S (length (front ++ [z])) - 1)%nat
                      = Some z).
      { rewrite length_app. simpl length.
        replace (length l1 + S (length front + 1) - 1)%nat
          with (length l1 + S (length front))%nat by lia.
        rewrite lookup_app_r by lia.
        replace (length l1 + S (length front) - length l1)%nat with (S (length front)) by lia.
        simpl. rewrite lookup_app_r by lia. now rewrite Nat.sub_diag. }
      rewrite Hlast.
      assert (Hins : <[length l1 := z]> (l1 ++ item :: front ++ [z])
                     = l1 ++ z :: front ++ [z]).
      { rewrite insert_app_r_alt by lia. now rewrite Nat.sub_diag. }
      rewrite Hins.
      replace (length (front ++ [z]) + 0)%nat with (length front + 1 + 0)%nat
        by (rewrite length_app; simpl; lia).
      rewrite (removeLoop_skip item (l1 ++ z :: front ++ [z]) _ (length front + 1)).
      2:{ intros j x Hj Hx <-. apply Hn2, list_elem_of_In.
          rewrite lookup_app_r in Hx by lia.
          destruct (j - length l1)%nat as [|k] eqn:Hk; [lia|].
          simpl in Hx. now apply list_elem_of_lookup_2 in Hx. }
      2:{ rewrite length_app. simpl. rewrite length_app. simpl. lia. }
      cbn [removeLoop]. f_equal.
      rewrite length_app. simpl length.
      replace (length l1 + S (length front + 1) - 1)%nat
        with (length l1 + S (length front))%nat by lia.
      rewrite firstn_app, firstn_all2 by lia.
      replace (length l1 + S (length front) - length l1)%nat with (S (length front)) by lia.
      simpl. rewrite firstn_app, firstn_all, Nat.sub_diag. now rewrite app_nil_r. }
  split; [exact Hres|]. split.
  - intros res Hr. rewrite Hres in Hr. injection Hr as <-.
    destruct l2 as [|y l2].
    + rewrite !app_nil_r. split; [exact Hn1 | reflexivity].
    + pose proof (@exists_last _ (y :: l2) ltac:(discriminate)) as (front & z & Hl2).
      rewrite Hl2 in *. rewrite last_last, removelast_last. split.
      * rewrite in_app_iff. simpl. intros [H|[H|H]]; [auto | |].
        -- apply Hn2, in_or_app. right. now left.
        -- apply Hn2, in_or_app. now left.
      * apply Permutation_app_head.
        rewrite Permutation_app_comm. reflexivity.
  - intros other Ho. now apply RemoveStringSliceItem_absent.
Qed.

(** Once an index at or beyond the current length, not yet visited, holds
    the item, the loop ends in the index-out-of-range panic. *)
Lemma removeLoop_doomed item : forall turns i arr n j,
  (turns + i = length arr)%nat ->
  (i <= j < length arr)%nat -> (n <= j)%nat ->
  arr !! j = Some item ->
  removeLoop item turns i arr n = None.
Proof.
  induction turns as [|turns IH]; intros i arr n j Hlen Hj Hn Hitem; [lia|].
  cbn [removeLoop].
  destruct (arr !! i) as [x|] eqn:Hx; [|reflexivity].
  destruct (String.eqb_spec item x) as [->|Hd].
  - destruct (Nat.ltb_spec i n) as [Hin|Hin]; [|reflexivity].
    destruct (arr !! (n - 1)%nat) as [last|] eqn:Hl; [|reflexivity].
    apply (IH _ _ _ j).
    + rewrite length_insert. lia.
    + rewrite length_insert. lia.
    + lia.
    + rewrite list_lookup_insert_ne by lia. exact Hitem.
  - destruct (Nat.eq_dec i j) as [->|Hij].
    + rewrite Hitem in Hx. injection Hx as <-. contradiction.
    + apply (IH _ _ _ j); [lia | lia | lia | exact Hitem].
Qed.

(** X20.  With duplicates the function can panic: when the item is the last
    element and also occurs before it, the call ends in an
    index-out-of-range panic. *)
Theorem RemoveStringSliceItem_panics (item : string) (l : list string) :
  In item l ->
  RemoveStringSliceItem item (l ++ [item]) = None.
Proof.
  intros Hin.
  apply in_split in Hin as (l1 & l2 & ->).
  assert (Hfirst : exists k1 k2, l1 ++ item :: l2 = k1 ++ item :: k2 /\ ~ In item k1).
  { clear. induction l1 as [|x l1 IH]; simpl.
    - exists [], l2. auto.
    - destruct (String.eqb_spec x item) as [->|Hne].
      + exists [], (l1 ++ item :: l2). auto.
      + destruct IH as (k1 & k2 & Heq & Hn). exists (x :: k1), k2.
        rewrite Heq. split; [reflexivity|]. intros [H|H]; auto. }
  destruct Hfirst as (k1 & k2 & -> & Hn1).
  unfold RemoveStringSliceItem.
  assert (Hnone : removeLoop item (length ((k1 ++ item :: k2) ++ [item])) 0
                    ((k1 ++ item :: k2) ++ [item])
                    (length ((k1 ++ item :: k2) ++ [item])) = None).
  { rewrite <- !app_assoc. cbn [app].
    rewrite !length_app. cbn [length]. rewrite length_app. cbn [length].
    replace (length k1 + S (length k2 + 1))%nat
      with (length k1 + S (length k2 + 1))%nat at 1 by lia.
    rewrite (removeLoop_skip item _ _ (length k1) 0 (S (length k2 + 1))).
    2:{ intros j x Hj Hx <-. apply Hn1, list_elem_of_In.
        rewrite lookup_app_l in Hx by lia. now apply list_elem_of_lookup_2 in Hx. }
    2:{ rewrite length_app. lia. }
    cbn [removeLoop Nat.add].
    rewrite list_lookup_middle by reflexivity. rewrite String.eqb_refl.
    destruct (Nat.ltb_spec (length k1) (length k1 + S (length k2 + 1))) as [_|]; [|lia].
    assert (Hlast : (k1 ++ item :: k2 ++ [item]) !! (length k1 + S (length k2 + 1) - 1)%nat
                    = Some item).
    { replace (length k1 + S (length k2 + 1) - 1)%nat
        with (length k1 + S (length k2))%nat by lia.
      rewrite lookup_app_r by lia.
      replace (length k1 + S (length k2) - length k1)%nat with (S (length k2)) by lia.
      simpl. rewrite lookup_app_r by lia. now rewrite Nat.sub_diag. }
    rewrite Hlast.
    rewrite list_insert_id by (now apply list_lookup_middle).
    apply (removeLoop_doomed item _ _ _ _ (length k1 + S (length k2))%nat).
    - rewrite length_app. cbn [length]. rewrite length_app. cbn [length]. lia.
    - rewrite length_app. cbn [length]. rewrite length_app. cbn [length]. lia.
    - lia.
    - rewrite lookup_app_r by lia.
      replace (length k1 + S (length k2) - length k1)%nat with (S (length k2)) by lia.
      simpl. rewrite lookup_app_r by lia. now rewrite Nat.sub_diag. }
  now rewrite Hnone.
Qed.

End StringSlices.

(** Removing "b" from the duplicate-free ["a"; "b"; "c"; "d"] moves "d"
    into its place. *)
Lemma RemoveStringSliceItem_nodup_witness :
  common.RemoveStringSliceItem "b" (["a"%string] ++ "b"%string :: ["c"%string; "d"%string])
  = Some ["a"%string; "d"%string; "c"%string].
Proof.
  apply (proj1 (RemoveStringSliceItem_nodup "b" ["a"%string] ["c"%string; "d"%string]
                  ltac:(apply NoDup_ListNoDup; repeat constructor; simpl; intuition discriminate))).
Defined.

(** Removing "a" from ["a"; "x"; "a"] panics. *)
Lemma RemoveStringSliceItem_panics_witness :
  common.RemoveStringSliceItem "a" (["a"%string; "x"%string] ++ ["a"%string]) = None.
Proof.
  apply RemoveStringSliceItem_panics. now left.
Defined.

(** ** engine: selecting detectors by name *)

Section DetectorSelection.

Import detectors_selection.

Variable ToLower : string -> string.

Lemma setDetectors_spec (dts : list string) (x : string) :
  x ∈ setDetectors ToLower dts <-> exists d, In d dts /\ x = ToLower d.
Proof.
  unfold setDetectors.
  assert (H : forall l (acc : gset string),
            x ∈ fold_left (fun valid d => {[ ToLower d ]} ∪ valid) l acc
            <-> (exists d, In d l /\ x = ToLower d) \/ x ∈ acc).
  { induction l as [|d l IH]; intros acc; simpl.
    - split; [auto | intros [(d & [] & _)|H]; exact H].
    - rewrite IH, elem_of_union, elem_of_singleton. split.
      + intros [(d' & Hd & Hx)|[Hx|Hx]]; eauto.
      + intros [(d' & [<-|Hd] & Hx)|Hx]; eauto. }
  rewrite H. split; [intros [Hx|Hx]; [exact Hx | now apply not_elem_of_empty in Hx] | auto].
Qed.

Lemma filterLoop_spec configured : forall defaults ds,
  (forall d, In d defaults -> is_Some (beforeLastDot (trimStars d))) ->
  filterLoop defaults configured ds
  = Some (ds ++ List.filter
                  (fun d => match beforeLastDot (trimStars d) with
                            | Some dt => bool_decide (dt ∈ configured)
                            | None => false
                            end) defaults).
Proof.
  induction defaults as [|d defaults IH]; intros ds Hdot; simpl.
  - now rewrite app_nil_r.
  - destruct (Hdot d (or_introl eq_refl)) as [dt Hdt]. rewrite Hdt.
    destruct (decide (dt ∈ configured)) as [Hin|Hin].
    + rewrite bool_decide_eq_true_2 by exact Hin.
      rewrite IH by (intros; apply Hdot; now right). now rewrite <- app_assoc.
    + rewrite bool_decide_eq_false_2 by exact Hin.
      apply IH. intros; apply Hdot; now right.
Qed.

(** X21.  For a non-empty list of names [Detectors] never falls back to the
    default set: it returns, in their default order, exactly the default
    detectors whose package name (the type name without leading stars and
    without its last dot-separated part) is the lowercased form of one of
    the names, and so returns no detector at all when no name matches. *)
Theorem Detectors_by_name (defaults dts : list string) :
  dts <> [] ->
  (forall d, In d defaults -> is_Some (beforeLastDot (trimStars d))) ->
  exists res,
    Detectors ToLower defaults dts = Some res /\
    sublist res defaults /\
    (forall d, In d res <->
       In d defaults /\
       exists dt name, beforeLastDot (trimStars d) = Some dt /\
                       In name dts /\ dt = ToLower name) /\
    ((forall d dt name, In d defaults -> beforeLastDot (trimStars d) = Some dt ->
                        In name dts -> dt <> ToLower name) ->
     res = []).
Proof.
  intros Hne Hdot. unfold Detectors, filterDetectors.
  destruct dts as [|d0 dts]; [contradiction|]. cbn [length Nat.eqb].
  assert (Hsize : size (setDetectors ToLower (d0 :: dts)) <> 0%nat).
  { intros Hz. apply size_empty_iff in Hz.
    assert (Hin : ToLower d0 ∈ setDetectors ToLower (d0 :: dts)).
    { apply setDetectors_spec. exists d0. split; [now left | reflexivity]. }
    rewrite Hz in Hin. now apply not_elem_of_empty in Hin. }
  destruct (Nat.eqb_spec (size (setDetectors ToLower (d0 :: dts))) 0) as [Hz|_];
    [contradiction|].
  rewrite filterLoop_spec by exact Hdot. cbn [app].
  eexists. split; [reflexivity|].
  assert (Hmem : forall d,
            In d (List.filter
                    (fun d => match beforeLastDot (trimStars d) with
                              | Some dt => bool_decide (dt ∈ setDetectors ToLower (d0 :: dts))
                              | None => false
                              end) defaults)
            <-> In d defaults /\
                exists dt name, beforeLastDot (trimStars d) = Some dt /\
                                In name (d0 :: dts) /\ dt = ToLower name).
  { intros d. rewrite filter_In. split.
    - intros [Hd Hb]. split; [exact Hd|].
      destruct (beforeLastDot (trimStars d)) as [dt|]; [|discriminate].
      apply bool_decide_eq_true in Hb. apply setDetectors_spec in Hb as (name & Hn & ->).
      eauto.
    - intros [Hd (dt & name & Hdt & Hn & ->)]. split; [exact Hd|].
      rewrite Hdt. apply bool_decide_eq_true, setDetectors_spec. eauto. }
  split; [|split; [exact Hmem|]].
  - clear. induction defaults as [|d defaults IH]; simpl; [constructor|].
    destruct (match beforeLastDot (trimStars d) with
              | Some dt => bool_decide (dt ∈ setDetectors ToLower (d0 :: dts))
              | None => false
              end); [now apply sublist_skip | now apply sublist_cons].
  - intros Hnone.
    destruct (List.filter _ defaults) as [|d res] eqn:Hf; [reflexivity|].
    exfalso.
    assert (Hd : In d (d :: res)) by now left.
    apply Hmem in Hd as [Hd (dt & name & Hdt & Hn & Heq)].
    exact (Hnone d dt name Hd Hdt Hn Heq).
Qed.

End DetectorSelection.

(** Asking for "Twilio" and an unknown name selects the twilio scanner. *)
Lemma Detectors_by_name_witness :
  exists res,
    detectors_selection.Detectors main.asciiToLower
      ["*twilio.Scanner"%string; "ftp.Scanner"%string] ["Twilio"%string; "nope"%string]
    = Some res /\
    sublist res ["*twilio.Scanner"%string; "ftp.Scanner"%string].
Proof.
  destruct (Detectors_by_name main.asciiToLower
              ["*twilio.Scanner"%string; "ftp.Scanner"%string]
              ["Twilio"%string; "nope"%string]) as (res & Hres & Hsub & _).
  - discriminate.
  - intros d [<-|[<-|[]]]; vm_compute; eauto.
  - exists res. auto.
Defined.

(** ** decoders: a Base64 run is replaced by what it decodes to *)

Section Base64Runs.

Import decoders.

Local Abbreviation b64 := (fun c : byte => isB64 c = true).

Lemma quiet_of_noLongRun threshold : forall l run,
  Forall b64 run -> noLongRun threshold (run ++ l) ->
  quiet threshold (len run) l.
Proof.
  induction l as [|c l IH]; intros run Hrun Hno; simpl.
  - apply (Hno [] run []); [now rewrite app_nil_r | exact Hrun].
  - destruct (isB64 c) eqn:Hc.
    + replace (len run + 1) with (len (run ++ [c])) by (rewrite len_app; reflexivity).
      apply IH.
      * apply Forall_app. split; [exact Hrun | now constructor].
      * now rewrite <- app_assoc.
    + split.
      * apply (Hno [] run (c :: l)); [reflexivity | exact Hrun].
      * apply (IH []); [constructor|].
        intros a r b Heq Hr. apply (Hno (run ++ c :: a) r b); [|exact Hr].
        simpl in Heq. rewrite Heq, <- app_assoc. reflexivity.
Qed.

Lemma trailing_snoc c : forall l count,
  trailing count (l ++ [c]) = if isB64 c then trailing count l + 1 else 0.
Proof.
  induction l as [|x l IH]; intros count; simpl.
  - destruct (isB64 c); reflexivity.
  - destruct (isB64 x); apply IH.
Qed.

Lemma trailing_endsOutside l : endsOutside l -> trailing 0 l = 0.
Proof.
  intros [->|(front & c & -> & Hc)]; [reflexivity|].
  now rewrite trailing_snoc, Hc.
Qed.

(** Scanning a quiet stretch adds no substring. *)
Lemma scanRuns_quiet data threshold rest subs : forall l i count start,
  quiet threshold count l ->
  exists start',
    scanRuns data (l ++ rest) i threshold count start subs
    = scanRuns data rest (i + len l) threshold (trailing count l) start' subs.
Proof.
  induction l as [|c l IH]; intros i count start Hq; simpl.
  - exists start. now rewrite len_nil, Z.add_0_r.
  - assert (Hlen : i + len (c :: l) = i + 1 + len l)
      by (unfold len; simpl length; lia).
    rewrite Hlen. simpl in Hq. destruct (isB64 c).
    + apply IH. exact Hq.
    + destruct Hq as [Hle Hq].
      destruct (Z.ltb_spec threshold count); [lia|].
      apply IH. exact Hq.
Qed.

(** Scanning a run of Base64 characters only counts. *)
Lemma scanRuns_run data threshold rest subs : forall run i count start,
  Forall b64 run -> 0 <= count ->
  scanRuns data (run ++ rest) i threshold count start subs
  = scanRuns data rest (i + len run) threshold (count + len run)
      (match run with
       | [] => start
       | _ :: _ => if count =? 0 then i else start
       end) subs.
Proof.
  induction run as [|c run IH]; intros i count start Hrun Hc; simpl.
  - now rewrite len_nil, !Z.add_0_r.
  - apply Forall_cons in Hrun as [Hb Hrun]. rewrite Hb.
    assert (Hlen : len (c :: run) = 1 + len run) by (unfold len; simpl length; lia).
    rewrite Hlen, IH by (assumption || lia).
    replace (i + 1 + len run) with (i + (1 + len run)) by lia.
    replace (count + 1 + len run) with (count + (1 + len run)) by lia.
    f_equal. destruct run; [reflexivity|].
    destruct (Z.eqb_spec (count + 1) 0); [lia | reflexivity].
Qed.

Lemma slice_middle (pre enc post : list byte) :
  slice (pre ++ enc ++ post) (len pre) (len pre + len enc) = enc.
Proof.
  unfold slice, len.
  replace (Z.to_nat (Z.of_nat (length pre) + Z.of_nat (length enc) - Z.of_nat (length pre)))
    with (length enc) by lia.
  rewrite Nat2Z.id, drop_app_length. apply take_app_length.
Qed.

Lemma TrimLeft_head_outside (l cutset : list byte) :
  (forall c rest, l = c :: rest -> inSet cutset c = false) ->
  TrimLeft l cutset = l.
Proof.
  intros H. destruct l as [|c l]; [reflexivity|]. simpl.
  now rewrite (H c l eq_refl).
Qed.

Lemma TrimLeft_suffix cutset : forall l, exists h, l = h ++ TrimLeft l cutset.
Proof.
  induction l as [|c l [h IH]]; simpl.
  - exists []. reflexivity.
  - destruct (inSet cutset c).
    + exists (c :: h). simpl. now rewrite <- IH.
    + exists []. reflexivity.
Qed.

Lemma TrimLeft_app_cut cutset : forall p l,
  Forall (fun c => inSet cutset c = true) p ->
  TrimLeft (p ++ l) cutset = TrimLeft l cutset.
Proof.
  induction p as [|c p IH]; intros l Hp; simpl; [reflexivity|].
  apply Forall_cons in Hp as [Hc Hp]. rewrite Hc. now apply IH.
Qed.

Lemma TrimRight_prefix cutset l : exists t, l = TrimRight l cutset ++ t.
Proof.
  unfold TrimRight. destruct (TrimLeft_suffix cutset (rev l)) as [h Hh].
  exists (rev h). rewrite <- rev_app_distr, <- Hh. now rewrite rev_involutive.
Qed.

Lemma TrimRight_app_cut cutset l p :
  Forall (fun c => inSet cutset c = true) p ->
  TrimRight (l ++ p) cutset = TrimRight l cutset.
Proof.
  intros Hp. unfold TrimRight. rewrite rev_app_distr, TrimLeft_app_cut; [reflexivity|].
  apply Forall_forall. intros c Hc. rewrite Forall_forall in Hp. apply Hp.
  apply list_elem_of_In. apply list_elem_of_In in Hc. now apply in_rev.
Qed.

Lemma IndexByte_absent c : forall l, ~ In c l -> IndexByte l c = -1.
Proof.
  induction l as [|x l IH]; intros Hn; simpl; [reflexivity|].
  destruct (Byte.eqb x c) eqn:Hx.
  - apply Byte.byte_dec_bl in Hx. subst. exfalso. apply Hn. now left.
  - rewrite IH by (intros H; apply Hn; now right). reflexivity.
Qed.

(** Induction four elements at a time. *)
Lemma list_ind4 {A} (P : list A -> Prop) :
  P [] -> (forall a, P [a]) -> (forall a b, P [a; b]) -> (forall a b c, P [a; b; c]) ->
  (forall a b c d rest, P rest -> P (a :: b :: c :: d :: rest)) ->
  forall l, P l.
Proof.
  intros H0 H1 H2 H3 H4.
  refine (fix IH l :=
            match l with
            | [] => H0
            | [a] => H1 a
            | [a; b] => H2 a b
            | [a; b; c] => H3 a b c
            | a :: b :: c :: d :: rest => H4 a b c d rest (IH rest)
            end).
Qed.

(** What decodes consists of digits followed by padding. *)
Lemma decodeQuanta_shape : forall src out,
  decodeQuanta src = Ok out ->
  exists body pad,
    src = body ++ pad /\ Forall isDigit body /\
    Forall (fun c => isPad c = true) pad.
Proof.
  induction src as [| a | a b | a b c | a b c d rest IH] using list_ind4;
    intros out H; simpl in H; try discriminate.
  - exists [], []. repeat split; constructor.
  - destruct (decodeMap a) as [va|] eqn:Ha; [|discriminate].
    destruct (decodeMap b) as [vb|] eqn:Hb; [|discriminate].
    destruct (decodeMap c) as [vc|] eqn:Hc.
    + destruct (decodeMap d) as [vd|] eqn:Hd.
      * destruct (decodeQuanta rest) as [out'|] eqn:Hr; [|discriminate].
        destruct (IH out' eq_refl) as (body & pad & -> & Hbody & Hpad).
        exists (a :: b :: c :: d :: body), pad.
        split; [reflexivity|]. split; [|exact Hpad].
        repeat (constructor; [unfold isDigit; congruence|]). exact Hbody.
      * destruct (isPad d) eqn:Hpd; [|discriminate].
        destruct rest; [|discriminate].
        exists [a; b; c], [d]. split; [reflexivity|].
        split; [repeat (constructor; [unfold isDigit; congruence|]); constructor|].
        repeat constructor; assumption.
    + destruct (isPad c) eqn:Hpc; [|destruct (decodeMap d); discriminate].
      destruct (isPad d) eqn:Hpd; [|destruct (decodeMap d); discriminate].
      destruct rest; [|destruct (decodeMap d); discriminate].
      exists [a; b], [c; d]. split; [reflexivity|].
      split; [repeat (constructor; [unfold isDigit; congruence|]); constructor|].
      repeat constructor; assumption.
Qed.

End Base64Runs.

Section Base64Decoding.

Import decoders.

Local Abbreviation b64 := (fun c : byte => isB64 c = true).

Lemma isB64_not_newline c : isB64 c = true -> isNewline c = false.
Proof. intros H. destruct c; (reflexivity || (vm_compute in H; discriminate)). Qed.

Lemma filter_newlines_b64 : forall l,
  Forall b64 l -> List.filter (fun c => negb (isNewline c)) l = l.
Proof.
  induction l as [|c l IH]; intros H; simpl; [reflexivity|].
  apply Forall_cons in H as [Hc H].
  rewrite (isB64_not_newline c Hc). simpl. now rewrite IH.
Qed.

Lemma isPad_endChar c : isPad c = true -> inSet b64EndChars c = true.
Proof. intros H. apply Byte.byte_dec_bl in H. subst. reflexivity. Qed.

Lemma isDigit_not_pad c : isDigit c -> c <> "="%byte.
Proof. intros H ->. apply H. reflexivity. Qed.

(** What decodes has its padding at the very end only. *)
Lemma decodes_no_inner_pad src out :
  decodeQuanta src = Ok out ->
  IndexByte (TrimRight src b64EndChars) "="%byte = -1.
Proof.
  intros H. destruct (decodeQuanta_shape src out H) as (body & pad & -> & Hb & Hp).
  rewrite TrimRight_app_cut
    by (eapply Forall_impl; [exact Hp|]; intros c Hc; now apply isPad_endChar).
  destruct (TrimRight_prefix b64EndChars body) as [t Ht].
  apply IndexByte_absent. intros Hin.
  rewrite Ht in Hb. apply Forall_app in Hb as [Hb _].
  rewrite Forall_forall in Hb.
  apply (isDigit_not_pad "="%byte); [|reflexivity].
  apply Hb. now apply list_elem_of_In.
Qed.

Lemma decodes_nonempty src out :
  decodeQuanta src = Ok out -> src <> [] -> 0 < len out.
Proof.
  intros H Hne. destruct src as [|a [|b [|c [|d rest]]]]; simpl in H;
    try discriminate; [contradiction|].
  destruct (decodeMap a); [|discriminate].
  destruct (decodeMap b); [|discriminate].
  destruct (decodeMap c); destruct (decodeMap d);
    repeat match type of H with
           | context [decodeQuanta ?r] => destruct (decodeQuanta r)
           | context [if ?b then _ else _] => destruct b
           end;
    try discriminate; injection H as <-; unfold len; simpl length; lia.
Qed.

(** [bytes.Index] finds the first occurrence. *)
Lemma Index_first (sep : list byte) : forall front rest,
  (forall front' rest', front ++ sep ++ rest = front' ++ sep ++ rest' ->
                        (length front <= length front')%nat) ->
  Index (front ++ sep ++ rest) sep = len front.
Proof.
  induction front as [|c front IH]; intros rest Hfirst.
  - rewrite Index_eq.
    replace (hasPrefix ([] ++ sep ++ rest) sep) with true; [reflexivity|].
    symmetry. apply hasPrefix_spec. exists rest. reflexivity.
  - rewrite Index_eq.
    destruct (hasPrefix ((c :: front) ++ sep ++ rest) sep) eqn:Hp.
    + apply hasPrefix_spec in Hp as [post Hp].
      specialize (Hfirst [] post Hp). simpl in Hfirst. lia.
    + cbn [app]. cbv zeta. rewrite IH.
      * pose proof (len_nonneg front).
        destruct (Z.ltb_spec (len front) 0); [lia|].
        unfold len. simpl length. lia.
      * intros front' rest' Heq.
        specialize (Hfirst (c :: front') rest'). simpl in Hfirst.
        rewrite Heq in Hfirst. specialize (Hfirst eq_refl). lia.
Qed.

(** A long run that follows [pre] does not occur earlier. *)
Lemma run_occurs_first (pre enc post : list byte) :
  Forall b64 enc -> 20 < len enc -> noLongRun 20 pre -> endsOutside pre ->
  forall front' rest', pre ++ enc ++ post = front' ++ enc ++ rest' ->
                       (length pre <= length front')%nat.
Proof.
  intros Henc Hlen Hno Hend front' rest' Heq.
  apply List.app_eq_app in Heq as [l [[Hpre Hrest]|[Hfront _]]].
  2: { subst front'. rewrite length_app. lia. }
  destruct l as [|x l] using rev_ind.
  { subst pre. rewrite app_nil_r. lia. }
  clear IHl. exfalso.
  apply List.app_eq_app in Hrest as [l2 [[Hl _]|[Hl _]]].
  - (* the run starts inside [pre]: its last byte there is Base64 *)
    rewrite Hl in Henc. apply Forall_app in Henc as [Hb _].
    apply Forall_app in Hb as [_ Hx]. apply Forall_cons in Hx as [Hx _].
    destruct Hend as [->|(front & c & Hc & Hout)].
    + apply (f_equal (@length _)) in Hpre. rewrite !length_app in Hpre.
      simpl in Hpre. lia.
    + rewrite Hpre, app_assoc in Hc. apply app_inj_tail in Hc as [_ ->].
      congruence.
  - (* the whole run lies inside [pre] *)
    rewrite Hl in Hpre.
    specialize (Hno front' enc l2). rewrite <- Hpre in Hno.
    specialize (Hno eq_refl Henc). lia.
Qed.

Lemma quiet_trailing threshold : forall l count,
  quiet threshold count l -> trailing count l <= threshold.
Proof.
  induction l as [|c l IH]; intros count Hq; simpl in *; [exact Hq|].
  destruct (isB64 c); [now apply IH | apply IH; tauto].
Qed.

Lemma sliceFrom_app (front rest : list byte) :
  sliceFrom (front ++ rest) (len front) = rest.
Proof. unfold sliceFrom, len. rewrite Nat2Z.id. apply drop_app_length. Qed.

Lemma slice_front (front rest : list byte) :
  slice (front ++ rest) 0 (0 + len front) = front.
Proof.
  unfold slice, len. replace (Z.to_nat (0 + Z.of_nat (length front) - 0)) with (length front) by lia.
  simpl. apply take_app_length.
Qed.

(** X13.  A run of more than 20 Base64 characters that decodes,
    does not start with [+] or [/] and is bordered by other characters is
    replaced in the chunk's bytes by what it decodes to, the bytes around it
    being kept, provided these hold no long run themselves. *)
Theorem decoded_replaces_run (pre enc post secret : list byte) :
  Forall (fun c => isB64 c = true) enc ->
  20 < len enc ->
  (forall c rest, enc = c :: rest -> inSet b64EndChars c = false) ->
  DecodeString (string_of_list_byte enc) = Ok secret ->
  noLongRun 20 pre -> endsOutside pre ->
  noLongRun 20 post -> startsOutside post ->
  decoded (pre ++ enc ++ post) = Some (pre ++ secret ++ post).
Proof.
  intros Henc Hlen Hhead Hdec Hpre Hpre_end Hpost Hpost_start.
  set (data := pre ++ enc ++ post).
  assert (Hq : decodeQuanta enc = Ok secret).
  { unfold DecodeString in Hdec.
    rewrite list_byte_of_string_of_list_byte, filter_newlines_b64 in Hdec;
      assumption. }
  assert (Hne : enc <> []) by (intros ->; rewrite len_nil in Hlen; lia).
  assert (Hsecret : 0 < len secret) by (eapply decodes_nonempty; eassumption).
  assert (Happ : forall subs,
             appendB64Substring data (len pre) (len enc) subs
             = subs ++ [string_of_list_byte enc]).
  { intros subs. unfold appendB64Substring, data.
    rewrite slice_middle, (TrimLeft_head_outside _ _ Hhead),
      (decodes_no_inner_pad _ _ Hq).
    reflexivity. }
  assert (Hsubs : getSubstringsOfCharacterSet data 20 = [string_of_list_byte enc]).
  { unfold getSubstringsOfCharacterSet.
    destruct (Z.eqb_spec (len data) 0) as [H0|_].
    { unfold data in H0. rewrite !len_app in H0.
      pose proof (len_nonneg pre). pose proof (len_nonneg post). lia. }
    assert (Hqpre : quiet 20 0 pre)
      by (apply (quiet_of_noLongRun 20 pre []); [constructor | exact Hpre]).
    destruct (scanRuns_quiet data 20 (enc ++ post) [] pre 0 0 0 Hqpre) as [s1 H1].
    unfold data at 2. rewrite H1, (trailing_endsOutside _ Hpre_end).
    rewrite (scanRuns_run data 20 post [] enc _ 0 s1 Henc) by lia.
    replace (match enc with
             | [] => s1
             | _ :: _ => if 0 =? 0 then 0 + len pre else s1
             end) with (len pre) by (destruct enc; [contradiction | reflexivity]).
    rewrite !Z.add_0_l.
    assert (Hlt : (20 <? len enc) = true) by (apply Z.ltb_lt; exact Hlen).
    destruct Hpost_start as [->|(c & p & -> & Hc)].
    - cbn [scanRuns]. rewrite Hlt. apply Happ.
    - cbn [scanRuns]. rewrite Hc, Hlt, Happ.
      assert (Hqp : quiet 20 0 p).
      { pose proof (quiet_of_noLongRun 20 (c :: p) [] ltac:(constructor) Hpost) as Hq'.
        simpl in Hq'. rewrite Hc in Hq'. tauto. }
      destruct (scanRuns_quiet data 20 [] ([] ++ [string_of_list_byte enc]) p
                  (len pre + len enc + 1) 0 (len pre) Hqp) as [s2 H2].
      rewrite app_nil_r in H2. rewrite H2. cbn [scanRuns].
      pose proof (quiet_trailing 20 p 0 Hqp).
      destruct (Z.ltb_spec 20 (trailing 0 p)); [lia | reflexivity]. }
  unfold decoded. fold data. rewrite Hsubs.
  cbn [decodeAll]. rewrite Hdec.
  destruct (Z.ltb_spec 0 (len secret)); [|lia].
  rewrite insert_empty, map_size_singleton.
  change (0 <? Z.of_nat 1) with true. cbv iota.
  cbn [rewrite]. rewrite lookup_singleton_eq, list_byte_of_string_of_list_byte.
  change (sliceFrom data 0) with data.
  assert (Hidx : Index data enc = len pre)
    by (apply Index_first, run_occurs_first; assumption).
  rewrite Hidx.
  pose proof (len_nonneg pre) as Hpos.
  destruct (Z.eqb_spec (len pre) (-1)) as [Hm|_]; [lia|].
  cbn [negb]. unfold data at 1 2.
  rewrite slice_front, Z.add_0_l.
  replace (len pre + len enc) with (len (pre ++ enc)) by apply len_app.
  rewrite (app_assoc pre enc post), sliceFrom_app.
  now rewrite app_nil_l, <- app_assoc.
Qed.

Lemma decoded_replaces_run_witness :
  decoders.decoded
    (list_byte_of_string "key: "
     ++ list_byte_of_string "aGVsbG8gd29ybGQgaGVsbG8gd29ybGQ="
     ++ list_byte_of_string " end")
  = Some (list_byte_of_string "key: "
          ++ list_byte_of_string "hello world hello world"
          ++ list_byte_of_string " end").
Proof.
  apply decoded_replaces_run.
  - repeat constructor.
  - reflexivity.
  - intros c rest H. injection H as <- _. reflexivity.
  - vm_compute. reflexivity.
  - intros a r b H Hr. apply (f_equal (@length _)) in H.
    rewrite !length_app in H. unfold len. simpl in H. lia.
  - right. exists (list_byte_of_string "key:"), " "%byte. split; reflexivity.
  - intros a r b H Hr. apply (f_equal (@length _)) in H.
    rewrite !length_app in H. unfold len. simpl in H. lia.
  - right. exists " "%byte, (list_byte_of_string "end"). split; reflexivity.
Defined.

End Base64Decoding.

(** ** decoders: what the scan hands to the Base64 decoder *)

Section SubstringCharset.

Import decoders.

Local Abbreviation b64 := (fun c : byte => isB64 c = true).
Local Abbreviation inCharset :=
  (fun s : string => Forall (fun c : byte => isB64 c = true) (list_byte_of_string s)).

Lemma appendB64Substring_charset data start count subs :
  Forall b64 (slice data start (start + count)) ->
  Forall inCharset subs ->
  Forall inCharset (appendB64Substring data start count subs).
Proof.
  intros Hrun Hsubs. unfold appendB64Substring.
  set (run := slice data start (start + count)) in *.
  destruct (TrimLeft_suffix b64EndChars run) as [h Hh].
  assert (Ht : Forall b64 (TrimLeft run b64EndChars))
    by (rewrite Hh in Hrun; now apply Forall_app in Hrun as [_ ?]).
  destruct (negb _); apply Forall_app; (split; [exact Hsubs|]);
    constructor; try constructor; rewrite list_byte_of_string_of_list_byte.
  - unfold sliceFrom.
    rewrite <- (take_drop (Z.to_nat
      (IndexByte (TrimRight (TrimLeft run b64EndChars) b64EndChars) "="%byte + 1))
      (TrimLeft run b64EndChars)) in Ht.
    now apply Forall_app in Ht as [_ ?].
  - exact Ht.
Qed.

Lemma scanRuns_charset data threshold : forall rest front run i count start subs,
  data = front ++ run ++ rest -> Forall b64 run -> len run = count ->
  (run <> [] -> start = len front) -> i = len front + len run ->
  Forall inCharset subs ->
  exists count' start' subs',
    scanRuns data rest i threshold count start subs = (count', start', subs') /\
    Forall inCharset subs' /\
    Forall b64 (slice data start' (start' + count')).
Proof.
  induction rest as [|c rest IH];
    intros front run i count start subs Hdata Hrun Hcount Hstart Hi Hsubs.
  - exists count, start, subs. split; [reflexivity|]. split; [exact Hsubs|].
    destruct run as [|x run'].
    + rewrite <- Hcount, len_nil, Z.add_0_r. unfold slice.
      rewrite Z.sub_diag. constructor.
    + rewrite (Hstart ltac:(discriminate)), <- Hcount, Hdata, slice_middle.
      exact Hrun.
  - assert (Hslice : Forall b64 (slice data start (start + count))).
    { destruct run as [|x run'].
      - rewrite <- Hcount, len_nil, Z.add_0_r. unfold slice.
        rewrite Z.sub_diag. constructor.
      - rewrite (Hstart ltac:(discriminate)), <- Hcount, Hdata, slice_middle.
        exact Hrun. }
    cbn [scanRuns]. destruct (isB64 c) eqn:Hc.
    + apply (IH front (run ++ [c])).
      * rewrite Hdata, <- app_assoc. reflexivity.
      * apply Forall_app. split; [exact Hrun | now constructor].
      * rewrite len_app, Hcount. reflexivity.
      * intros _. destruct (Z.eqb_spec count 0) as [H0|H0].
        -- rewrite Hi, Hcount, H0. lia.
        -- apply Hstart. intros ->. rewrite len_nil in Hcount. congruence.
      * rewrite Hi. unfold len. rewrite !length_app. simpl length. lia.
      * exact Hsubs.
    + apply (IH (front ++ run ++ [c]) []).
      * rewrite Hdata, <- !app_assoc. reflexivity.
      * constructor.
      * reflexivity.
      * intros H. contradiction.
      * rewrite Hi. unfold len. rewrite !length_app. simpl length. lia.
      * destruct (threshold <? count); [|exact Hsubs].
        now apply appendB64Substring_charset.
Qed.

(** X14.  Whatever the data and the threshold, every substring that
    [getSubstringsOfCharacterSet] returns consists of characters of the
    Base64 character set only. *)
Theorem getSubstringsOfCharacterSet_charset (data : list byte) (threshold : Z) :
  Forall (fun s => Forall (fun c => isB64 c = true) (list_byte_of_string s))
         (getSubstringsOfCharacterSet data threshold).
Proof.
  unfold getSubstringsOfCharacterSet.
  destruct (len data =? 0); [constructor|].
  destruct (scanRuns_charset data threshold data [] [] 0 0 0 [])
    as (count & start & subs & -> & Hsubs & Hrun);
    try reflexivity; try constructor.
  destruct (threshold <? count); [|exact Hsubs].
  now apply appendB64Substring_charset.
Qed.

End SubstringCharset.

(** ** bufferedfilewriter: closing twice *)

Section CloseTwice.

Import bufferedfilewriter.

(** X6.  [Close] does nothing on a writer that never went to a file, any
    number of times.  Once a temporary file exists, a [Close] that succeeded
    cannot be repeated: the second call returns an error and changes
    nothing. *)
Theorem Close_twice (w w' : BufferedFileWriter) (os os' : OS) :
  Close w os = (None, w', os') ->
  match file w with
  | None => w' = w /\ os' = os /\ Close w' os' = (None, w', os')
  | Some _ => exists e, Close w' os' = (Some e, w', os')
  end.
Proof.
  unfold Close at 1. destruct (file w) as [f|] eqn:Hf.
  - destruct (if 0 <? len (buf w) then fileWrite os f (buf w) else Ok os)
      as [os1|e] eqn:Hflush; [|discriminate].
    unfold fileClose. destruct (closed f) eqn:Hcl; [discriminate|].
    intros H. injection H as <- <-.
    unfold Close. cbn [file buf]. unfold fileWrite, fileClose. cbn [closed].
    destruct (0 <? len (buf w)); eexists; reflexivity.
  - intros H. injection H as <- <-. unfold Close. rewrite Hf. auto.
Qed.

Lemma Close_twice_witness :
  exists e, Close (mkWriter 2 3 [] "trufflehog-1" (Some (mkFile "trufflehog-1" true)))
                  (mkOS (<["trufflehog-1"%string := bytes "abc"]> ∅) ["trufflehog-2"%string])
            = (Some e,
               mkWriter 2 3 [] "trufflehog-1" (Some (mkFile "trufflehog-1" true)),
               mkOS (<["trufflehog-1"%string := bytes "abc"]> ∅) ["trufflehog-2"%string]).
Proof.
  exact (Close_twice
           (mkWriter 2 3 [] "trufflehog-1" (Some (mkFile "trufflehog-1" false)))
           _ (mkOS (<["trufflehog-1"%string := bytes "abc"]> ∅) ["trufflehog-2"%string])
           _ eq_refl).
Defined.

End CloseTwice.

Lemma roundtrip_buffered_witness :
  bufferedfilewriter.roundtrip (bufferedfilewriter.New (Some 5)) bufferedfilewriter.os0
    [bufferedfilewriter.bytes "ab"; bufferedfilewriter.bytes "cd"]
  = Ok (concat [bufferedfilewriter.bytes "ab"; bufferedfilewriter.bytes "cd"]).
Proof.
  apply roundtrip_buffered.
  - split; [lia | reflexivity].
  - apply Z.leb_le. reflexivity.
Defined.
